(** * Horizon Canvas: the note store, placement, canvas zoom, AI assist and
      debounced saving of the App component, embedded in Rocq.

    Source files embedded here:
    - the type declarations ([ProjectNote], [CanvasState], ...),
    - the App component ([addNote], [updateNote], [deleteNote],
      [handleWheel], the zoom buttons, the debounced save effect),
    - [ProjectCard.tsx] ([handleResizeStart], [handleAiBrainstorm]),
    - [geminiService.ts] ([generateProjectIdeas]).

    Conventions of the embedding.
    - A JavaScript [number] is a rational ([Q]): the finite, non-NaN doubles,
      with exact arithmetic.  Only order and the four operations are used.
      Counters of the spiral walk, which only ever hold small integers, are [Z].
    - A JavaScript array is a [list]; [Array.prototype.map], [filter] and
      [some] are [fmap], [filter] and [existsb].
    - React state is passed explicitly: a [setX (prev => f prev)] call is the
      function [f] on the previous state.
    - [uuidv4 ()] and [Date.now ()] are inputs of [addNote]. *)

From Stdlib Require Import QArith Qminmax Lqa ZArith Lia.
From stdpp Require Import list strings pretty gmap.

Local Open Scope Q_scope.

(** ** JavaScript numbers *)

Definition number : Type := Q.

Definition Math_max (a b : number) : number := Qmax a b.
Definition Math_min (a b : number) : number := Qmin a b.

(** [a < b] on numbers, as a boolean. *)
Definition num_lt (a b : number) : bool :=
  match a ?= b with Lt => true | _ => false end.

(** ** The type declarations *)

Inductive ProjectColor : Type := WHITE | BLUE | YELLOW | GREEN | RED | PURPLE.

Inductive PriorityLevel : Type :=
  | priority_none | priority_low | priority_medium | priority_high.

Module Coordinates.
Record t : Type := mk { x : number; y : number }.
End Coordinates.

Module ProjectNote.
Record t : Type := mk {
    id : string;
    title : string;
    content : string;
    x : number;
    y : number;
    width : number;
    height : number;
    color : ProjectColor;
    createdAt : number;
    tags : list string;
    priority : PriorityLevel
  }.
End ProjectNote.

Module CanvasState.
Record t : Type := mk { offset : Coordinates.t; zoom : number }.
End CanvasState.

Module User.
Record t : Type := mk {
    name : string;
    email : string;
    picture : string;
    accessToken : string
  }.
End User.

(** [Partial<ProjectNote>]: every field may be absent. *)
Module Partial.
Record t : Type := mk {
    id : option string;
    title : option string;
    content : option string;
    x : option number;
    y : option number;
    width : option number;
    height : option number;
    color : option ProjectColor;
    createdAt : option number;
    tags : option (list string);
    priority : option PriorityLevel
  }.

Definition empty : t :=
    mk None None None None None None None None None None None.
End Partial.

(** The object spread [{ ...n, ...updates }]: a field present in [updates]
    replaces the one of [n]. *)
Definition spread (n : ProjectNote.t) (updates : Partial.t) : ProjectNote.t :=
  {| ProjectNote.id := default (ProjectNote.id n) (Partial.id updates);
     ProjectNote.title := default (ProjectNote.title n) (Partial.title updates);
     ProjectNote.content := default (ProjectNote.content n) (Partial.content updates);
     ProjectNote.x := default (ProjectNote.x n) (Partial.x updates);
     ProjectNote.y := default (ProjectNote.y n) (Partial.y updates);
     ProjectNote.width := default (ProjectNote.width n) (Partial.width updates);
     ProjectNote.height := default (ProjectNote.height n) (Partial.height updates);
     ProjectNote.color := default (ProjectNote.color n) (Partial.color updates);
     ProjectNote.createdAt := default (ProjectNote.createdAt n) (Partial.createdAt updates);
     ProjectNote.tags := default (ProjectNote.tags n) (Partial.tags updates);
     ProjectNote.priority := default (ProjectNote.priority n) (Partial.priority updates) |}.

(** ** The note store of the App component *)

(** [setNotes(prev => prev.map(n => n.id === id ? { ...n, ...updates } : n))] *)
Definition updateNote (id : string) (updates : Partial.t)
    (prev : list ProjectNote.t) : list ProjectNote.t :=
  (λ n, if decide (ProjectNote.id n = id) then spread n updates else n) <$> prev.

(** [setNotes(prev => prev.filter(n => n.id !== id))] *)
Definition deleteNote (id : string) (prev : list ProjectNote.t) : list ProjectNote.t :=
  filter (λ n, ProjectNote.id n ≠ id) prev.

(** ** Placement of a new note ([addNote]) *)

Module Window.
Record t : Type := mk { innerWidth : number; innerHeight : number }.
End Window.

Module Placement.
Definition width : number := 400.
Definition height : number := 320.
Definition gap : number := 24.

Definition viewCenterX (canvasState : CanvasState.t) (window : Window.t) : number :=
    (- Coordinates.x (CanvasState.offset canvasState) + Window.innerWidth window / 2)
    / CanvasState.zoom canvasState.
Definition viewCenterY (canvasState : CanvasState.t) (window : Window.t) : number :=
    (- Coordinates.y (CanvasState.offset canvasState) + Window.innerHeight window / 2)
    / CanvasState.zoom canvasState.

Definition startX (canvasState : CanvasState.t) (window : Window.t) : number :=
    viewCenterX canvasState window - width / 2.
Definition startY (canvasState : CanvasState.t) (window : Window.t) : number :=
    viewCenterY canvasState window - height / 2.

  (** The test of one note inside [checkOverlap]. *)
Definition overlaps_note (x y : number) (note : ProjectNote.t) : bool :=
    num_lt x (ProjectNote.x note + ProjectNote.width note + gap) &&
    num_lt (ProjectNote.x note) (x + width + gap) &&
    num_lt y (ProjectNote.y note + ProjectNote.height note + gap) &&
    num_lt (ProjectNote.y note) (y + height + gap).

  (** [notes.some(note => ...)] *)
Definition checkOverlap (notes : list ProjectNote.t) (x y : number) : bool :=
    existsb (overlaps_note x y) notes.

  (** The variables of the spiral walk. *)
Record walk : Type := mkWalk {
    d : Z; len : Z; lenCount : Z; turnCount : Z; cx : Z; cy : Z
  }.

Definition walk_init : walk := mkWalk 0 1 0 0 0 0.

  (** One iteration of the [for] loop up to the computation of the candidate
      cell: move one cell in direction [d], then turn when the run is over and
      lengthen the run every second turn. *)
Definition advance (w : walk) : walk :=
    let cx1 := if (d w =? 0)%Z then (cx w + 1)%Z
               else if (d w =? 1)%Z then cx w
               else if (d w =? 2)%Z then (cx w - 1)%Z
               else cx w in
    let cy1 := if (d w =? 0)%Z then cy w
               else if (d w =? 1)%Z then (cy w + 1)%Z
               else if (d w =? 2)%Z then cy w
               else if (d w =? 3)%Z then (cy w - 1)%Z
               else cy w in
    let lenCount1 := (lenCount w + 1)%Z in
    if (lenCount1 =? len w)%Z then
      let d1 := ((d w + 1) mod 4)%Z in
      let turnCount1 := (turnCount w + 1)%Z in
      if (turnCount1 =? 2)%Z
      then mkWalk d1 (len w + 1)%Z 0 0 cx1 cy1
      else mkWalk d1 (len w) 0 turnCount1 cx1 cy1
    else mkWalk (d w) (len w) lenCount1 (turnCount w) cx1 cy1.

Section search.
Variables (notes : list ProjectNote.t) (startX startY : number).

Definition tryX (w : walk) : number := startX + inject_Z (cx w) * (width + gap).
Definition tryY (w : walk) : number := startY + inject_Z (cy w) * (height + gap).

    (** The [for] loop with [remaining] iterations to go: [Some] is the
        position assigned to [finalX], [finalY] before [break]; [None] means
        the loop ran out without assigning them. *)
Fixpoint search (remaining : nat) (w : walk) : option (number * number) :=
      match remaining with
      | O => None
      | S k =>
          let w' := advance w in
          if negb (checkOverlap notes (tryX w') (tryY w'))
          then Some (tryX w', tryY w')
          else search k w'
      end.

    (** The candidate tested in iteration [i] (counted from 1). *)
Definition candidate (i : nat) : number * number :=
      let w := Nat.iter i advance walk_init in (tryX w, tryY w).

    (** [(finalX, finalY)] when the new note is built. *)
Definition finalPosition : number * number :=
      if checkOverlap notes startX startY then
        match search 100 walk_init with
        | Some p => p
        | None => (startX, startY)
        end
      else (startX, startY).
End search.
End Placement.

(** The inputs of one [addNote] call other than the notes: the canvas state and
    window size seen by the handler, and the results of [uuidv4 ()] and
    [Date.now ()]. *)
Module AddNoteCall.
Record t : Type := mk {
    canvasState : CanvasState.t;
    window : Window.t;
    uuid : string;
    now : number
  }.
End AddNoteCall.

Definition newNote (c : AddNoteCall.t) (notes : list ProjectNote.t) : ProjectNote.t :=
  let p := Placement.finalPosition notes
             (Placement.startX (AddNoteCall.canvasState c) (AddNoteCall.window c))
             (Placement.startY (AddNoteCall.canvasState c) (AddNoteCall.window c)) in
  {| ProjectNote.id := AddNoteCall.uuid c;
     ProjectNote.title := "New Note";
     ProjectNote.content := "<ul><li>Item 1</li></ul>";
     ProjectNote.x := fst p;
     ProjectNote.y := snd p;
     ProjectNote.width := Placement.width;
     ProjectNote.height := Placement.height;
     ProjectNote.color := WHITE;
     ProjectNote.createdAt := AddNoteCall.now c;
     ProjectNote.tags := [];
     ProjectNote.priority := priority_none |}.

(** [setNotes([...notes, newNote])]; the selection, set to [newNote.id] by the
    same handler, is a separate state cell. *)
Definition addNote (c : AddNoteCall.t) (notes : list ProjectNote.t) : list ProjectNote.t :=
  notes ++ [newNote c notes].

(** The operations of the store, and a run of them. *)
Inductive store_op : Type :=
  | CreateNote (c : AddNoteCall.t)
  | UpdateNote (id : string) (updates : Partial.t)
  | DeleteNote (id : string).

Definition apply_op (notes : list ProjectNote.t) (op : store_op) : list ProjectNote.t :=
  match op with
  | CreateNote c => addNote c notes
  | UpdateNote id updates => updateNote id updates notes
  | DeleteNote id => deleteNote id notes
  end.

Definition run_ops (ops : list store_op) (notes : list ProjectNote.t) : list ProjectNote.t :=
  foldl apply_op notes ops.

(** ** Canvas zoom and pan *)

Definition MIN_ZOOM : number := 0.2.
Definition MAX_ZOOM : number := 2.5.

Module WheelEvent.
Record t : Type := mk {
    ctrlKey : bool; metaKey : bool; deltaX : number; deltaY : number
  }.
End WheelEvent.

(** [handleWheel]: [canvasState] is the state the handler closed over, [prev]
    the state its updater receives. *)
Definition handleWheel (canvasState : CanvasState.t) (e : WheelEvent.t)
    (prev : CanvasState.t) : CanvasState.t :=
  if WheelEvent.ctrlKey e || WheelEvent.metaKey e then
    let zoomSensitivity := 0.001 in
    let delta := - WheelEvent.deltaY e * zoomSensitivity in
    let newZoom :=
      Math_min (Math_max (CanvasState.zoom canvasState + delta) MIN_ZOOM) MAX_ZOOM in
    {| CanvasState.offset := CanvasState.offset prev; CanvasState.zoom := newZoom |}
  else
    {| CanvasState.offset :=
         {| Coordinates.x := Coordinates.x (CanvasState.offset prev) - WheelEvent.deltaX e;
            Coordinates.y := Coordinates.y (CanvasState.offset prev) - WheelEvent.deltaY e |};
       CanvasState.zoom := CanvasState.zoom prev |}.

(** The updaters of the two zoom buttons. *)
Definition zoomOut (s : CanvasState.t) : CanvasState.t :=
  {| CanvasState.offset := CanvasState.offset s;
     CanvasState.zoom := Math_max (CanvasState.zoom s - 0.1) MIN_ZOOM |}.

Definition zoomIn (s : CanvasState.t) : CanvasState.t :=
  {| CanvasState.offset := CanvasState.offset s;
     CanvasState.zoom := Math_min (CanvasState.zoom s + 0.1) MAX_ZOOM |}.

Inductive canvas_event : Type :=
  | Wheel (e : WheelEvent.t)
  | ZoomOutClick
  | ZoomInClick.

(** Events are handled one at a time and the component re-renders in between,
    so a handler closes over the state its updater receives. *)
Definition canvas_step (s : CanvasState.t) (ev : canvas_event) : CanvasState.t :=
  match ev with
  | Wheel e => handleWheel s e s
  | ZoomOutClick => zoomOut s
  | ZoomInClick => zoomIn s
  end.

Definition canvas_run (evs : list canvas_event) (s : CanvasState.t) : CanvasState.t :=
  foldl canvas_step s evs.

(** ** ProjectCard: resizing *)

Module MouseEvent.
Record t : Type := mk { clientX : number; clientY : number }.
End MouseEvent.

(** The [handleMouseMove] listener installed by [handleResizeStart]: [note] and
    [zoom] are the props of the card and [e] the mouse-down event, all three
    closed over; [onUpdate] is [updateNote]. *)
Definition handleResizeStart_move (note : ProjectNote.t) (zoom : number)
    (e moveEvent : MouseEvent.t) : Partial.t :=
  let startX := MouseEvent.clientX e in
  let startY := MouseEvent.clientY e in
  let startWidth := ProjectNote.width note in
  let startHeight := ProjectNote.height note in
  let deltaX := (MouseEvent.clientX moveEvent - startX) / zoom in
  let deltaY := (MouseEvent.clientY moveEvent - startY) / zoom in
  {| Partial.id := None; Partial.title := None; Partial.content := None;
     Partial.x := None; Partial.y := None;
     Partial.width := Some (Math_max 300 (startWidth + deltaX));
     Partial.height := Some (Math_max 200 (startHeight + deltaY));
     Partial.color := None; Partial.createdAt := None; Partial.tags := None;
     Partial.priority := None |}.

Definition resize_move (note : ProjectNote.t) (zoom : number) (e : MouseEvent.t)
    (prev : list ProjectNote.t) (moveEvent : MouseEvent.t) : list ProjectNote.t :=
  updateNote (ProjectNote.id note) (handleResizeStart_move note zoom e moveEvent) prev.

(** A whole resize gesture: the mouse moves between mouse-down and mouse-up. *)
Definition resize_gesture (note : ProjectNote.t) (zoom : number) (e : MouseEvent.t)
    (moves : list MouseEvent.t) (prev : list ProjectNote.t) : list ProjectNote.t :=
  foldl (resize_move note zoom e) prev moves.

(** ** geminiService: [generateProjectIdeas] *)

(** What [await ai.models.generateContent (...)] does: it rejects, or resolves
    to a response whose [text] may be undefined. *)
Inductive generateContent_outcome : Type :=
  | Rejects
  | Resolves (text : option string).

Definition api_key_missing : string :=
  "API Key is missing. Please check your configuration.".
Definition generate_failed : string :=
  "Failed to generate ideas. Please try again.".
Definition no_response : string := "No response generated.".

(** [s || fallback] on a possibly undefined string: the empty string is falsy. *)
Definition or_else (s : option string) (fallback : string) : string :=
  match s with
  | Some (String c r) => String c r
  | _ => fallback
  end.

(** [generateProjectIdeas]: [apiKey] is the module constant; the collaborator
    is given as the outcome of its call for each title and content (the prompt
    is built from these two alone).  The [try]/[catch] is the [match]. *)
Definition generateProjectIdeas (apiKey : string)
    (generateContent : string → string → generateContent_outcome)
    (title content : string) : string :=
  match apiKey with
  | EmptyString => api_key_missing
  | _ =>
      match generateContent title content with
      | Resolves text => or_else text no_response
      | Rejects => generate_failed
      end
  end.

(** ** ProjectCard: [handleAiBrainstorm] *)

Definition newline : Ascii.ascii := Ascii.ascii_of_nat 10.

(** [s.replace(/\n/g, '<br/>')] *)
Fixpoint replace_newlines (s : string) : string :=
  match s with
  | EmptyString => EmptyString
  | String c r =>
      if Ascii.eqb c newline then "<br/>" +:+ replace_newlines r
      else String c (replace_newlines r)
  end.

Definition suggestion_header : string :=
  "<br/><br/><strong>AI Suggestion:</strong><br/>".

(** [handleAiBrainstorm]: [note] is the prop of the card, [textContent] the
    DOM's conversion of HTML to plain text, [prev] the store when [onUpdate]
    runs.  The loading flag of the card is a separate state cell. *)
Definition handleAiBrainstorm (apiKey : string)
    (generateContent : string → string → generateContent_outcome)
    (textContent : string → option string)
    (note : ProjectNote.t) (prev : list ProjectNote.t) : list ProjectNote.t :=
  let plainText := or_else (textContent (ProjectNote.content note)) EmptyString in
  let suggestion :=
    generateProjectIdeas apiKey generateContent (ProjectNote.title note) plainText in
  let newContent :=
    ProjectNote.content note +:+ suggestion_header +:+ replace_newlines suggestion in
  updateNote (ProjectNote.id note)
    {| Partial.id := None; Partial.title := None; Partial.content := Some newContent;
       Partial.x := None; Partial.y := None; Partial.width := None;
       Partial.height := None; Partial.color := None; Partial.createdAt := None;
       Partial.tags := None; Partial.priority := None |}
    prev.

(** ** The debounced save effect

    The effect and its timer callback are run on a logical clock counting
    milliseconds.  A timer fires at the time it is due; the effect runs at the
    time of the [setNotes] that changed its dependency; the write started by
    the callback ([await saveToDrive (...)] or [localStorage.setItem]) is
    settled, and the status set, at the time the callback runs.  Only this
    effect sets timers, and its cleanup clears the one of the previous run, so
    the state holds at most one pending timer. *)

Inductive SaveStatus : Type := saved | saving | error | offline.

(** Where the timer callback writes. *)
Inductive destination : Type :=
  | Drive (fileId : string)
  | LocalStorage.

(** One call of [saveToDrive] or [localStorage.setItem]: when it was made, where
    to, with which notes (the payload is their JSON serialisation), and whether
    it succeeded. *)
Record write : Type := mkWrite {
  write_time : Z;
  write_to : destination;
  write_payload : list ProjectNote.t;
  write_ok : bool
}.

(** A pending [setTimeout]: the time it is due (milliseconds) and the variables
    its callback closed over. *)
Record timeout : Type := mkTimeout {
  due : Z;
  timeout_notes : list ProjectNote.t;
  timeout_user : User.t;
  timeout_driveFileId : option string
}.

(** The state cells of the App component read or written by the effect, the
    pending timer, the clock, and the log of the writes made so far (oldest
    first). *)
Module App.
Record t : Type := mk {
  user : option User.t;
  driveFileId : option string;
  notes : list ProjectNote.t;
  saveStatus : SaveStatus;
  timer : option timeout;
  clock : Z;
  writes : list write
}.
End App.

Definition set_saveStatus (v : SaveStatus) (st : App.t) : App.t :=
  App.mk (App.user st) (App.driveFileId st) (App.notes st) v
         (App.timer st) (App.clock st) (App.writes st).
Definition set_timer (v : option timeout) (st : App.t) : App.t :=
  App.mk (App.user st) (App.driveFileId st) (App.notes st) (App.saveStatus st)
         v (App.clock st) (App.writes st).
Definition set_notes (v : list ProjectNote.t) (st : App.t) : App.t :=
  App.mk (App.user st) (App.driveFileId st) v (App.saveStatus st)
         (App.timer st) (App.clock st) (App.writes st).
Definition set_clock (v : Z) (st : App.t) : App.t :=
  App.mk (App.user st) (App.driveFileId st) (App.notes st) (App.saveStatus st)
         (App.timer st) v (App.writes st).
Definition log_write (w : write) (st : App.t) : App.t :=
  App.mk (App.user st) (App.driveFileId st) (App.notes st) (App.saveStatus st)
         (App.timer st) (App.clock st) (App.writes st ++ [w]).

(** The branch taken by the timer callback: the test
    [user.accessToken && driveFileId] holds when both strings are non-empty. *)
Definition save_destination (user : User.t) (driveFileId : option string) : destination :=
  match User.accessToken user, driveFileId with
  | String _ _, Some (String c r) => Drive (String c r)
  | _, _ => LocalStorage
  end.

Section save_effect.
(** [backend t] tells whether a write made at time [t] succeeds. *)
Variable backend : Z → bool.

(** The effect, run when one of [notes], [user], [driveFileId] has changed: the
    cleanup of the previous run ([clearTimeout]) and then the body. *)
Definition save_effect (st : App.t) : App.t :=
  let st := set_timer None st in
  match App.user st with
  | None => st
  | Some user =>
      let st := set_saveStatus saving st in
      set_timer
        (Some (mkTimeout (App.clock st + 2000) (App.notes st) user (App.driveFileId st)))
        st
  end.

(** The callback given to [setTimeout], run at time [App.clock st]. *)
Definition timer_callback (tm : timeout) (st : App.t) : App.t :=
  let to := save_destination (timeout_user tm) (timeout_driveFileId tm) in
  let ok := backend (App.clock st) in
  let st := log_write (mkWrite (App.clock st) to (timeout_notes tm) ok) st in
  if ok then set_saveStatus saved st else set_saveStatus error st.

(** Time passes until [t]: a pending timer that is due by then fires at the
    time it is due. *)
Definition elapse (t : Z) (st : App.t) : App.t :=
  let st :=
    match App.timer st with
    | Some tm =>
        if (due tm <=? t)%Z
        then timer_callback tm (set_clock (Z.max (App.clock st) (due tm)) (set_timer None st))
        else st
    | None => st
    end in
  set_clock (Z.max (App.clock st) t) st.

(** A mutation of the note collection at time [t]: [setNotes (f)], after which
    the effect runs because [notes] has changed. *)
Definition mutate (st : App.t) (m : Z * (list ProjectNote.t → list ProjectNote.t)) : App.t :=
  let st := elapse (fst m) st in
  save_effect (set_notes (snd m (App.notes st)) st).

Definition mutations (ms : list (Z * (list ProjectNote.t → list ProjectNote.t)))
    (st : App.t) : App.t :=
  foldl mutate st ms.
End save_effect.

(** ** Vocabulary of the statements *)

(** The payload [{ width, height }] of a geometry update. *)
Definition size_update (width height : number) : Partial.t :=
  {| Partial.id := None; Partial.title := None; Partial.content := None;
     Partial.x := None; Partial.y := None;
     Partial.width := Some width; Partial.height := Some height;
     Partial.color := None; Partial.createdAt := None; Partial.tags := None;
     Partial.priority := None |}.

(** The geometry floors of a note. *)
Definition floors_hold (n : ProjectNote.t) : Prop :=
  300 <= ProjectNote.width n ∧ 200 <= ProjectNote.height n.

(** What is assigned to a note at its creation and meant to stay. *)
Definition identity (n : ProjectNote.t) : string * number :=
  (ProjectNote.id n, ProjectNote.createdAt n).

(** The identities assigned by the [createNote] operations of a run. *)
Definition created_identities (ops : list store_op) : list (string * number) :=
  omap (λ op, match op with
              | CreateNote c => Some (AddNoteCall.uuid c, AddNoteCall.now c)
              | _ => None
              end) ops.

(** An operation whose payload, if it has one, names neither [id] nor
    [createdAt]. *)
Definition keeps_identity (op : store_op) : Prop :=
  match op with
  | UpdateNote _ updates =>
      Partial.id updates = None ∧ Partial.createdAt updates = None
  | _ => True
  end.

(** Sample notes for the examples. *)
Definition sample_note (id : string) (x y width height : number) : ProjectNote.t :=
  {| ProjectNote.id := id; ProjectNote.title := "Sample";
     ProjectNote.content := "<p>text</p>";
     ProjectNote.x := x; ProjectNote.y := y;
     ProjectNote.width := width; ProjectNote.height := height;
     ProjectNote.color := WHITE; ProjectNote.createdAt := 1000;
     ProjectNote.tags := []; ProjectNote.priority := priority_none |}.

Definition note_a : ProjectNote.t := sample_note "a" 0 0 400 300.
Definition note_b : ProjectNote.t := sample_note "b" 1000 0 400 300.

(** A payload naming [id] and [createdAt], which [Partial<ProjectNote>] allows. *)
Definition identity_update (id : string) (createdAt : number) : Partial.t :=
  {| Partial.id := Some id; Partial.title := None; Partial.content := None;
     Partial.x := None; Partial.y := None;
     Partial.width := None; Partial.height := None;
     Partial.color := None; Partial.createdAt := Some createdAt;
     Partial.tags := None; Partial.priority := None |}.

(** A viewport at the origin with zoom 1 in a window of 1000 by 800. *)
Definition canvas_home : CanvasState.t := CanvasState.mk (Coordinates.mk 0 0) 1.
Definition window_1000_800 : Window.t := Window.mk 1000 800.

Definition sample_call (uuid : string) : AddNoteCall.t :=
  AddNoteCall.mk canvas_home window_1000_800 uuid 2000.

Definition sample_ops : list store_op :=
  [CreateNote (sample_call "c"); UpdateNote "a" (size_update 500 400); DeleteNote "b"].

(** The zoom invariant of the canvas state. *)
Definition zoom_in_range (s : CanvasState.t) : Prop :=
  MIN_ZOOM <= CanvasState.zoom s ∧ CanvasState.zoom s <= MAX_ZOOM.

Definition sample_canvas_events : list canvas_event :=
  [Wheel (WheelEvent.mk true false 0 (-5000)); ZoomInClick;
   Wheel (WheelEvent.mk false false 30 40); ZoomOutClick;
   Wheel (WheelEvent.mk false true 0 9000)].

(** The AI-assist call fails: no API key is configured, or the collaborator
    rejects. *)
Definition assist_fails (apiKey : string)
    (generateContent : string → string → generateContent_outcome)
    (title plainText : string) : Prop :=
  apiKey = EmptyString ∨ generateContent title plainText = Rejects.

(** A collaborator that always rejects, and a stand-in for the DOM's
    [textContent]. *)
Definition rejecting : string → string → generateContent_outcome := λ _ _, Rejects.
Definition plain : string → option string := λ html, Some html.

(** No spiral cell tested by the loop is free: each of the 100 candidates
    overlaps a note. *)
Definition no_free_cell (notes : list ProjectNote.t) (startX startY : number) : Prop :=
  ∀ i : nat, (1 ≤ i ≤ 100)%nat →
    Placement.checkOverlap notes
      (fst (Placement.candidate startX startY i))
      (snd (Placement.candidate startX startY i)) = true.

Definition no_free_cellb (notes : list ProjectNote.t) (startX startY : number) : bool :=
  forallb (λ i, Placement.checkOverlap notes
                  (fst (Placement.candidate startX startY i))
                  (snd (Placement.candidate startX startY i)))
          (seq 1 100).

(** Two positions are the same point. *)
Definition same_position (p q : number * number) : Prop :=
  fst p == fst q ∧ snd p == snd q.

(** The rectangle of [a] meets the rectangle of [b] widened by [g] on every
    side (equivalently, the other way round): the test of [checkOverlap], with
    the sizes of the two notes themselves. *)
Definition rect_overlap (g : number) (a b : ProjectNote.t) : Prop :=
  ProjectNote.x a < ProjectNote.x b + ProjectNote.width b + g ∧
  ProjectNote.x b < ProjectNote.x a + ProjectNote.width a + g ∧
  ProjectNote.y a < ProjectNote.y b + ProjectNote.height b + g ∧
  ProjectNote.y b < ProjectNote.y a + ProjectNote.height a + g.

Definition rect_overlapb (g : number) (a b : ProjectNote.t) : bool :=
  num_lt (ProjectNote.x a) (ProjectNote.x b + ProjectNote.width b + g) &&
  num_lt (ProjectNote.x b) (ProjectNote.x a + ProjectNote.width a + g) &&
  num_lt (ProjectNote.y a) (ProjectNote.y b + ProjectNote.height b + g) &&
  num_lt (ProjectNote.y b) (ProjectNote.y a + ProjectNote.height a + g).

(** A run of [createNote] calls with nothing in between, and the notes it
    creates, oldest first. *)
Definition create_run (calls : list AddNoteCall.t) (notes : list ProjectNote.t)
    : list ProjectNote.t :=
  foldl (λ s c, addNote c s) notes calls.

Fixpoint created_notes (calls : list AddNoteCall.t) (notes : list ProjectNote.t)
    : list ProjectNote.t :=
  match calls with
  | [] => []
  | c :: calls => newNote c notes :: created_notes calls (addNote c notes)
  end.

(** The call finds a free position: the desired position is free, or one of
    the 100 spiral cells is. *)
Definition finds_free_position (c : AddNoteCall.t) (notes : list ProjectNote.t) : Prop :=
  let startX := Placement.startX (AddNoteCall.canvasState c) (AddNoteCall.window c) in
  let startY := Placement.startY (AddNoteCall.canvasState c) (AddNoteCall.window c) in
  Placement.checkOverlap notes startX startY = false ∨
  ∃ i : nat, (1 ≤ i ≤ 100)%nat ∧
    Placement.checkOverlap notes
      (fst (Placement.candidate startX startY i))
      (snd (Placement.candidate startX startY i)) = false.

Fixpoint every_call_finds (calls : list AddNoteCall.t) (notes : list ProjectNote.t) : Prop :=
  match calls with
  | [] => True
  | c :: calls => finds_free_position c notes ∧ every_call_finds calls (addNote c notes)
  end.

(** A note covering the desired position and every cell of the spiral. *)
Definition huge_note : ProjectNote.t := sample_note "huge" (-10000) (-10000) 20000 20000.

(** 102 [createNote] calls from the same viewport, with the ids 0, 1, ... *)
Definition crowd : list AddNoteCall.t := (λ i, sample_call (pretty i)) <$> seq 0 102.

(** The first and the last note of a store of 102 notes have different ids,
    overlap within the gap, overlap without any gap, and sit at the same
    point. *)
Definition first_and_last_collide (s : list ProjectNote.t) : bool :=
  match s !! 0%nat, s !! 101%nat with
  | Some a, Some b =>
      negb (String.eqb (ProjectNote.id a) (ProjectNote.id b)) &&
      rect_overlapb Placement.gap a b && rect_overlapb 0 a b &&
      Qeq_bool (ProjectNote.x a) (ProjectNote.x b) &&
      Qeq_bool (ProjectNote.y a) (ProjectNote.y b)
  | _, _ => false
  end.

(** A guest session with one note, a save pending for time 2000, and a
    backend whose write at time 2000 fails. *)
Definition guest : User.t := User.mk "Guest" "guest@local" EmptyString EmptyString.

Definition guest_app : App.t :=
  {| App.user := Some guest; App.driveFileId := None; App.notes := [note_a];
     App.saveStatus := saving;
     App.timer := Some (mkTimeout 2000 [note_a] guest None);
     App.clock := 0; App.writes := [] |}.

Definition fails_at_2000 : Z → bool := λ t, negb (t =? 2000)%Z.
Definition always_ok : Z → bool := λ _, true.

(** ** Pointer interaction of the App component *)

(** The four refs of the interaction state. *)
Module Interaction.
Record t : Type := mk {
  isDraggingCanvas : bool;
  isDraggingNote : bool;
  lastMousePos : Coordinates.t;
  draggingNoteId : option string
}.
End Interaction.

(** What the pointer handlers read and write: the refs, the notes, the canvas
    state and the selection. *)
Module Workspace.
Record t : Type := mk {
  refs : Interaction.t;
  notes : list ProjectNote.t;
  canvasState : CanvasState.t;
  selectedNoteId : option string
}.
End Workspace.

(** Truthiness of a [string | null]: neither [null] nor the empty string. *)
Definition truthy (s : option string) : bool :=
  match s with
  | Some (String _ _) => true
  | _ => false
  end.


(** The payload [{ x, y }] spread over a note. *)
Definition position_update (x y : number) : Partial.t :=
  {| Partial.id := None; Partial.title := None; Partial.content := None;
     Partial.x := Some x; Partial.y := Some y;
     Partial.width := None; Partial.height := None;
     Partial.color := None; Partial.createdAt := None; Partial.tags := None;
     Partial.priority := None |}.

(** The updater of [handleMouseMove]:
    [prev.map(note => note.id === draggingNoteId.current
                      ? { ...note, x: note.x + dx, y: note.y + dy } : note)]. *)
Definition drag_notes (draggingNoteId : option string) (dx dy : number)
    (prev : list ProjectNote.t) : list ProjectNote.t :=
  (λ note, if decide (Some (ProjectNote.id note) = draggingNoteId)
           then spread note (position_update (ProjectNote.x note + dx)
                                             (ProjectNote.y note + dy))
           else note) <$> prev.







(** ** ProjectCard: the other callers of [onUpdate] *)

Definition content_update (content : string) : Partial.t :=
  {| Partial.id := None; Partial.title := None; Partial.content := Some content;
     Partial.x := None; Partial.y := None; Partial.width := None;
     Partial.height := None; Partial.color := None; Partial.createdAt := None;
     Partial.tags := None; Partial.priority := None |}.

Definition color_update (color : ProjectColor) : Partial.t :=
  {| Partial.id := None; Partial.title := None; Partial.content := None;
     Partial.x := None; Partial.y := None; Partial.width := None;
     Partial.height := None; Partial.color := Some color; Partial.createdAt := None;
     Partial.tags := None; Partial.priority := None |}.

Definition priority_update (priority : PriorityLevel) : Partial.t :=
  {| Partial.id := None; Partial.title := None; Partial.content := None;
     Partial.x := None; Partial.y := None; Partial.width := None;
     Partial.height := None; Partial.color := None; Partial.createdAt := None;
     Partial.tags := None; Partial.priority := Some priority |}.

Definition title_update (title : string) : Partial.t :=
  {| Partial.id := None; Partial.title := Some title; Partial.content := None;
     Partial.x := None; Partial.y := None; Partial.width := None;
     Partial.height := None; Partial.color := None; Partial.createdAt := None;
     Partial.tags := None; Partial.priority := None |}.

(** [handleContentInput]: [editor] is [editorRef.current.innerHTML], absent
    when the ref is not attached. *)
Definition handleContentInput (editor : option string) (note : ProjectNote.t)
    (prev : list ProjectNote.t) : list ProjectNote.t :=
  match editor with
  | Some innerHTML => updateNote (ProjectNote.id note) (content_update innerHTML) prev
  | None => prev
  end.

Definition handleColorChange (color : ProjectColor) (note : ProjectNote.t)
    (prev : list ProjectNote.t) : list ProjectNote.t :=
  updateNote (ProjectNote.id note) (color_update color) prev.

(** Everything the two components do to the note collection, one user action
    at a time. *)
Inductive note_action : Type :=
  | ActAddNote (c : AddNoteCall.t)
  | ActDrag (draggingNoteId : option string) (dx dy : number)
  | ActResize (note : ProjectNote.t) (zoom : number) (e moveEvent : MouseEvent.t)
  | ActContent (editor : option string) (note : ProjectNote.t)
  | ActColor (color : ProjectColor) (note : ProjectNote.t)
  | ActPriority (priority : PriorityLevel) (note : ProjectNote.t)
  | ActTitle (title : string) (note : ProjectNote.t)
  | ActBrainstorm (apiKey : string)
      (generateContent : string → string → generateContent_outcome)
      (textContent : string → option string) (note : ProjectNote.t)
  | ActDelete (note : ProjectNote.t).

Definition apply_action (notes : list ProjectNote.t) (a : note_action)
    : list ProjectNote.t :=
  match a with
  | ActAddNote c => addNote c notes
  | ActDrag id dx dy => drag_notes id dx dy notes
  | ActResize note zoom e moveEvent => resize_move note zoom e notes moveEvent
  | ActContent editor note => handleContentInput editor note notes
  | ActColor color note => handleColorChange color note notes
  | ActPriority priority note =>
      updateNote (ProjectNote.id note) (priority_update priority) notes
  | ActTitle title note => updateNote (ProjectNote.id note) (title_update title) notes
  | ActBrainstorm apiKey generateContent textContent note =>
      handleAiBrainstorm apiKey generateContent textContent note notes
  | ActDelete note => deleteNote (ProjectNote.id note) notes
  end.

Definition run_actions (actions : list note_action) (notes : list ProjectNote.t)
    : list ProjectNote.t :=
  foldl apply_action notes actions.

(** A resize divides by the zoom, which the canvas keeps positive. *)
Definition action_ok (a : note_action) : Prop :=
  match a with
  | ActResize _ zoom _ _ => 0 < zoom
  | _ => True
  end.




Definition sample_actions : list note_action :=
  [ActAddNote (sample_call "c");
   ActResize note_a 2 (MouseEvent.mk 400 300) (MouseEvent.mk 0 0);
   ActDrag (Some "c") (-5000) 12;
   ActContent (Some "<b>hello</b>") note_b;
   ActBrainstorm EmptyString rejecting plain note_a;
   ActDelete note_b].

(** The grid cell reached after [i] iterations of the spiral walk, and the
    cells of the start and the 100 iterations. *)
Definition spiral_cell (i : nat) : Z * Z :=
  let w := Nat.iter i Placement.advance Placement.walk_init in
  (Placement.cx w, Placement.cy w).

Definition spiral_cells : list (Z * Z) := spiral_cell <$> seq 0 101.

(** A cell at most [r] columns and [r] rows away from the start. *)
Definition cell_within (r : Z) (c : Z * Z) : bool :=
  (- r <=? fst c)%Z && (fst c <=? r)%Z && (- r <=? snd c)%Z && (snd c <=? r)%Z.

(** ** Sessions: guest entry, sign-out, loading from Drive *)

Definition set_user (v : option User.t) (st : App.t) : App.t :=
  App.mk v (App.driveFileId st) (App.notes st) (App.saveStatus st)
         (App.timer st) (App.clock st) (App.writes st).
Definition set_driveFileId (v : option string) (st : App.t) : App.t :=
  App.mk (App.user st) v (App.notes st) (App.saveStatus st)
         (App.timer st) (App.clock st) (App.writes st).

Definition welcome_content : string :=
  "This is your infinite workspace.<br/><br/><ul><li>Drag empty space to pan.</li><li><b>Rich text</b> is now supported!</li><li>Try adding images via the toolbar.</li></ul>".

(** [getDefaultNotes]; [uuid] and [now] are the results of [uuidv4 ()] and
    [Date.now ()]. *)
Definition getDefaultNotes (window : Window.t) (uuid : string) (now : number)
    : list ProjectNote.t :=
  [{| ProjectNote.id := uuid;
      ProjectNote.title := "Welcome to Horizon";
      ProjectNote.content := welcome_content;
      ProjectNote.x := Window.innerWidth window / 2 - 200;
      ProjectNote.y := Window.innerHeight window / 2 - 150;
      ProjectNote.width := 400;
      ProjectNote.height := 300;
      ProjectNote.color := WHITE;
      ProjectNote.createdAt := now;
      ProjectNote.tags := ["tutorial"];
      ProjectNote.priority := priority_medium |}].

(** The key of the note collection in [localStorage], which is a finite map
    from keys to strings. *)
Definition horizon_notes : string := "horizon_notes".

(** A call that may throw (or a promise that may reject). *)
Inductive outcome (A : Type) : Type :=
  | Throws
  | Returns (a : A).
Arguments Throws {A}.
Arguments Returns {A} a.

(** The calls [syncFromDrive] makes to read or write a Drive file. *)
Inductive drive_call : Type :=
  | LoadCall (fileId : string)
  | SaveCall (data : list ProjectNote.t) (fileId : option string).


Section sessions.
(** [JSON.parse] on the stored text: [None] when it throws. *)
Variable JSON_parse : string → option (list ProjectNote.t).
Variable JSON_stringify : list ProjectNote.t → string.

(** [handleGuestLogin] *)
Definition handleGuestLogin (localStorage : gmap string string)
    (window : Window.t) (uuid : string) (now : number) (st : App.t) : App.t :=
  let st := set_user (Some guest) st in
  match localStorage !! horizon_notes with
  | Some (String c r) =>
      match JSON_parse (String c r) with
      | Some data => set_notes data st
      | None => set_notes (getDefaultNotes window uuid now) st
      end
  | _ => set_notes (getDefaultNotes window uuid now) st
  end.

(** [syncFromDrive]: [existingFile] is what [findSaveFile] resolved to, the
    next two arguments are what [loadDataFromDrive] and [saveToDrive] do.  The
    result is the state and the calls made to Drive. *)
Definition syncFromDrive (existingFile : option string)
    (loadDataFromDrive : string → outcome (list ProjectNote.t))
    (saveToDrive : list ProjectNote.t → option string → outcome string)
    (localStorage : gmap string string)
    (window : Window.t) (uuid : string) (now : number) (st : App.t)
    : App.t * list drive_call :=
  let st := set_saveStatus saving st in
  match existingFile with
  | Some fileId =>
      let st := set_driveFileId (Some fileId) st in
      match loadDataFromDrive fileId with
      | Returns data =>
          (set_saveStatus saved (set_notes data st), [LoadCall fileId])
      | Throws => (set_saveStatus error st, [LoadCall fileId])
      end
  | None =>
      let parsed :=
        match localStorage !! horizon_notes with
        | Some (String c r) =>
            match JSON_parse (String c r) with
            | Some data => data
            | None => []
            end
        | _ => []
        end in
      let initialNotes :=
        match parsed with
        | [] => getDefaultNotes window uuid now
        | _ => parsed
        end in
      let st := set_notes initialNotes st in
      match saveToDrive initialNotes None with
      | Returns newFileId =>
          (set_saveStatus saved (set_driveFileId (Some newFileId) st),
           [SaveCall initialNotes None])
      | Throws => (set_saveStatus error st, [SaveCall initialNotes None])
      end
  end.

(** What a write of the timer callback does to [localStorage]: a successful
    local save is [localStorage.setItem ('horizon_notes', JSON.stringify (notes))]. *)
Definition store_write (localStorage : gmap string string) (w : write)
    : gmap string string :=
  match write_to w, write_ok w with
  | LocalStorage, true =>
      <[horizon_notes := JSON_stringify (write_payload w)]> localStorage
  | _, _ => localStorage
  end.
End sessions.

(** [handleSignOut]: the state, and whether [googleService.signOut] is
    called. *)
Definition handleSignOut (st : App.t) : App.t * bool :=
  (set_driveFileId None (set_notes [] (set_user None st)),
   match App.user st with
   | Some user => truthy (Some (User.accessToken user))
   | None => false
   end).

(** ** googleService: loading the two scripts, signing in *)

Module Scripts.
Record t : Type := mk {
  gapiInited : bool;
  gisInited : bool;
  tokenClient : bool;
  onInit_calls : nat
}.
End Scripts.





(** The response given to the token callback, the profile of the user. *)
Module TokenResponse.
Record t : Type := mk { error : option string; access_token : string }.
End TokenResponse.

Module Profile.
Record t : Type := mk {
  displayName : string;
  emailAddress : option string;
  photoLink : string
}.
Definition fallback : t := mk "User" None EmptyString.
End Profile.



(** The stored text is of no use to a login: there is none, it is empty, or it
    does not parse. *)
Definition no_usable_data (JSON_parse : string → option (list ProjectNote.t))
    (localStorage : gmap string string) : Prop :=
  match localStorage !! horizon_notes with
  | Some text => text = EmptyString ∨ JSON_parse text = None
  | None => True
  end.

(** A stand-in for [JSON.stringify] and [JSON.parse] that knows one note
    collection, and a parser that always throws. *)
Definition stringify_sample : list ProjectNote.t → string := λ _, "[sample]".
Definition parse_sample (data : list ProjectNote.t) : string → option (list ProjectNote.t) :=
  λ text, if String.eqb text "[sample]" then Some data else None.
Definition parse_throws : string → option (list ProjectNote.t) := λ _, None.

(** A signed-in session before its first sync, as [handleLogin] leaves it when
    it calls [syncFromDrive]. *)
Definition signed_in : User.t := User.mk "Ada" "ada@example.org" EmptyString "token".

Definition fresh_login : App.t :=
  {| App.user := Some signed_in; App.driveFileId := None; App.notes := [];
     App.saveStatus := saved; App.timer := None; App.clock := 0; App.writes := [] |}.

(** The identities assigned by the [addNote] actions of a run. *)
Definition identities_created (actions : list note_action) : list (string * number) :=
  omap (λ a, match a with
             | ActAddNote c => Some (AddNoteCall.uuid c, AddNoteCall.now c)
             | _ => None
             end) actions.

(** The characters of a string. *)
Fixpoint characters (s : string) : list Ascii.ascii :=
  match s with
  | EmptyString => []
  | String c r => c :: characters r
  end.

(** A burst of mutations: each one comes no earlier than the one before and
    less than two seconds after it. *)
Fixpoint burst (previous : Z)
    (ms : list (Z * (list ProjectNote.t → list ProjectNote.t))) : Prop :=
  match ms with
  | [] => True
  | m :: ms => (previous ≤ fst m < previous + 2000)%Z ∧ burst (fst m) ms
  end.

(** The time of the last mutation of a burst that began at [first]. *)
Definition last_time (first : Z)
    (ms : list (Z * (list ProjectNote.t → list ProjectNote.t))) : Z :=
  List.last (fst <$> ms) first.

(** The notes after the mutations of a list have been applied in order. *)
Definition mutated (ms : list (Z * (list ProjectNote.t → list ProjectNote.t)))
    (notes : list ProjectNote.t) : list ProjectNote.t :=
  foldl (λ ns m, snd m ns) notes ms.

(** Two payloads in one: a field named by the later payload wins. *)
Definition later_wins {A : Type} (first later : option A) : option A :=
  match later with
  | Some v => Some v
  | None => first
  end.

Definition merge_updates (first later : Partial.t) : Partial.t :=
  {| Partial.id := later_wins (Partial.id first) (Partial.id later);
     Partial.title := later_wins (Partial.title first) (Partial.title later);
     Partial.content := later_wins (Partial.content first) (Partial.content later);
     Partial.x := later_wins (Partial.x first) (Partial.x later);
     Partial.y := later_wins (Partial.y first) (Partial.y later);
     Partial.width := later_wins (Partial.width first) (Partial.width later);
     Partial.height := later_wins (Partial.height first) (Partial.height later);
     Partial.color := later_wins (Partial.color first) (Partial.color later);
     Partial.createdAt := later_wins (Partial.createdAt first) (Partial.createdAt later);
     Partial.tags := later_wins (Partial.tags first) (Partial.tags later);
     Partial.priority := later_wins (Partial.priority first) (Partial.priority later) |}.

(** * Properties *)

Section store_frame.
Implicit Types (prev : list ProjectNote.t) (n : ProjectNote.t) (id : string).

Lemma updateNote_length id updates prev :
    length (updateNote id updates prev) = length prev.
  Proof. unfold updateNote. by rewrite length_fmap. Qed.

Lemma updateNote_lookup id updates prev (k : nat) :
    updateNote id updates prev !! k =
    (λ n, if decide (ProjectNote.id n = id) then spread n updates else n) <$> prev !! k.
  Proof. unfold updateNote. by rewrite list_lookup_fmap. Qed.

Lemma updateNote_absent id updates prev :
    id ∉ ProjectNote.id <$> prev → updateNote id updates prev = prev.
  Proof.
    induction prev as [|n prev IH]; [done|].
    rewrite fmap_cons, not_elem_of_cons. intros [Hne Hrest].
    unfold updateNote in *. rewrite fmap_cons.
    rewrite decide_False by congruence. by rewrite IH.
  Qed.

Lemma deleteNote_absent id prev :
    id ∉ ProjectNote.id <$> prev → deleteNote id prev = prev.
  Proof.
    induction prev as [|n prev IH]; [done|].
    rewrite fmap_cons, not_elem_of_cons. intros [Hne Hrest].
    unfold deleteNote in *. rewrite filter_cons_True by congruence.
    by rewrite IH.
  Qed.
End store_frame.

Section store_membership.
Implicit Types (prev : list ProjectNote.t) (n : ProjectNote.t) (id : string).

Lemma elem_of_updateNote id updates prev n :
  n ∈ updateNote id updates prev ↔
  ∃ n0, n0 ∈ prev ∧
        n = if decide (ProjectNote.id n0 = id) then spread n0 updates else n0.
Proof.
  unfold updateNote. rewrite list_elem_of_fmap. split.
  - intros (n0 & -> & Hin). by exists n0.
  - intros (n0 & Hin & ->). by exists n0.
Qed.

Lemma elem_of_deleteNote id prev n :
  n ∈ deleteNote id prev ↔ n ∈ prev ∧ ProjectNote.id n ≠ id.
Proof. unfold deleteNote. rewrite list_elem_of_filter. tauto. Qed.

Lemma deleteNote_sublist id prev : sublist (deleteNote id prev) prev.
Proof. apply sublist_filter. Qed.

Lemma deleteNote_ids id prev :
  ProjectNote.id <$> deleteNote id prev = filter (λ i, i ≠ id) (ProjectNote.id <$> prev).
Proof.
  unfold deleteNote. induction prev as [|n prev IH]; [done|].
  rewrite fmap_cons. destruct (decide (ProjectNote.id n = id)) as [Heq|Hne].
  - rewrite !filter_cons_False by tauto. exact IH.
  - rewrite !filter_cons_True by tauto. rewrite fmap_cons. by rewrite IH.
Qed.
End store_membership.

(** ** Unknown ids (C9) and the frame of an update or a deletion (C10) *)

(** C9.  [updateNote] and [deleteNote] called with an id that no note of the
    store has return the note collection they were given; both are total
    functions, so nothing is raised. *)
Theorem unknown_id_is_noop (id : string) (updates : Partial.t)
    (prev : list ProjectNote.t) :
  id ∉ ProjectNote.id <$> prev →
  updateNote id updates prev = prev ∧ deleteNote id prev = prev.
Proof.
  intros Hfresh. split.
  - by apply updateNote_absent.
  - by apply deleteNote_absent.
Qed.

(** C10.  [updateNote] keeps the number of notes, leaves the note at every
    position whose id differs from the given one as it was and puts the spread
    of the update at the other positions; [deleteNote] returns a subsequence
    of the collection (so the remaining notes are unchanged and in their
    original order) holding exactly the notes whose id differs. *)
Theorem update_delete_frame (id : string) (updates : Partial.t)
    (prev : list ProjectNote.t) :
  length (updateNote id updates prev) = length prev ∧
  (∀ (k : nat) (n : ProjectNote.t),
     prev !! k = Some n → ProjectNote.id n ≠ id →
     updateNote id updates prev !! k = Some n) ∧
  (∀ (k : nat) (n : ProjectNote.t),
     prev !! k = Some n → ProjectNote.id n = id →
     updateNote id updates prev !! k = Some (spread n updates)) ∧
  sublist (deleteNote id prev) prev ∧
  (∀ n : ProjectNote.t,
     n ∈ deleteNote id prev ↔ n ∈ prev ∧ ProjectNote.id n ≠ id).
Proof.
  split; [apply updateNote_length|].
  split; [|split; [|split]].
  - intros k n Hk Hne. rewrite updateNote_lookup, Hk. simpl.
    by rewrite decide_False.
  - intros k n Hk Heq. rewrite updateNote_lookup, Hk. simpl.
    by rewrite decide_True.
  - apply deleteNote_sublist.
  - intros n. apply elem_of_deleteNote.
Qed.

(** A store of two notes and an id none of them has. *)
Lemma unknown_id_is_noop_witness :
  updateNote "zz" (size_update 10 10) [note_a; note_b] = [note_a; note_b] ∧
  deleteNote "zz" [note_a; note_b] = [note_a; note_b].
Proof.
  apply (unknown_id_is_noop "zz" (size_update 10 10) [note_a; note_b]).
  simpl. rewrite !not_elem_of_cons. repeat split; try discriminate.
  apply not_elem_of_nil.
Defined.

(** The frame at a store of two notes, read at its first position. *)
Lemma update_delete_frame_witness :
  updateNote "b" (size_update 500 400) [note_a; note_b] !! 0%nat = Some note_a.
Proof.
  destruct (update_delete_frame "b" (size_update 500 400) [note_a; note_b])
    as (_ & Hother & _).
  apply Hother; [reflexivity | discriminate].
Defined.

(** ** Geometry floors (C1) *)

Lemma Math_max_ge_l (a b : number) : a <= Math_max a b.
Proof. apply Q.le_max_l. Qed.

Lemma updateNote_target id updates prev n :
  n ∈ updateNote id updates prev → ProjectNote.id n = id →
  Partial.id updates = None →
  ∃ n0, n0 ∈ prev ∧ ProjectNote.id n0 = id ∧ n = spread n0 updates.
Proof.
  intros Hin Hid Hnone. apply elem_of_updateNote in Hin as (n0 & Hin & ->).
  destruct (decide (ProjectNote.id n0 = id)) as [Heq|Hne].
  - by exists n0.
  - contradiction.
Qed.

(** C1, as the code has it.  The store applies no floor: after
    [updateNote (id, {width, height})] the notes with that id have exactly the
    width and height given.  The floors are applied by the resize handler of the
    card: at a positive zoom, after each mouse move of a resize gesture the
    resized note has width at least 300 and height at least 200.  (The zoom is
    asked to be positive because the handler divides by it; the canvas keeps
    it at [MIN_ZOOM] or more.) *)
Theorem floors_come_from_resize_handler (note : ProjectNote.t) (zoom : number)
    (e : MouseEvent.t) (moves : list MouseEvent.t) (prev : list ProjectNote.t) :
  (∀ (id : string) (width height : number) (n : ProjectNote.t),
     n ∈ updateNote id (size_update width height) prev →
     ProjectNote.id n = id →
     ProjectNote.width n = width ∧ ProjectNote.height n = height) ∧
  (0 < zoom → moves ≠ [] →
   ∀ n : ProjectNote.t,
     n ∈ resize_gesture note zoom e moves prev →
     ProjectNote.id n = ProjectNote.id note →
     floors_hold n).
Proof.
  split.
  - intros id w h n Hin Hid.
    destruct (updateNote_target _ _ _ _ Hin Hid eq_refl) as (n0 & _ & _ & ->).
    done.
  - intros _ Hmoves n Hin Hid.
    destruct (exists_last Hmoves) as (front & m & ->).
    unfold resize_gesture in Hin. rewrite foldl_app in Hin. simpl in Hin.
    unfold resize_move at 1 in Hin.
    destruct (updateNote_target _ _ _ _ Hin Hid eq_refl) as (n0 & _ & _ & ->).
    split; simpl; apply Math_max_ge_l.
Qed.

(** A resize gesture that drags the handle far up and to the left: the
    resized note, first in the store, ends at the floors. *)
Lemma floors_come_from_resize_handler_witness :
  ∃ n : ProjectNote.t,
    resize_gesture note_a 1 (MouseEvent.mk 400 300)
      [MouseEvent.mk 350 250; MouseEvent.mk 0 0] [note_a; note_b] !! 0%nat = Some n ∧
    ProjectNote.id n = "a" ∧
    floors_hold n.
Proof.
  eexists. split; [reflexivity|]. split; [reflexivity|].
  apply (proj2 (floors_come_from_resize_handler note_a 1 (MouseEvent.mk 400 300)
                  [MouseEvent.mk 350 250; MouseEvent.mk 0 0] [note_a; note_b])).
  - reflexivity.
  - discriminate.
  - apply list_elem_of_here.
  - reflexivity.
Defined.

(** C1, as stated, fails: an update with a width and a height below the floors
    is stored as it is. *)
Lemma store_applies_no_floor :
  ∃ n : ProjectNote.t,
    n ∈ updateNote "a" (size_update 10 10) [note_a; note_b] ∧
    ProjectNote.id n = "a" ∧ ¬ floors_hold n.
Proof.
  exists (spread note_a (size_update 10 10)). split; [|split].
  - apply list_elem_of_here.
  - reflexivity.
  - intros [Hw _]. simpl in Hw. revert Hw. apply Qlt_not_le. reflexivity.
Qed.

(** ** Identity of notes (C8) *)

Section identity.
Implicit Types (s : list ProjectNote.t) (ops : list store_op).

Lemma spread_identity n updates :
  Partial.id updates = None → Partial.createdAt updates = None →
  identity (spread n updates) = identity n.
Proof. intros Hid Hat. unfold identity, spread. simpl. by rewrite Hid, Hat. Qed.

Lemma updateNote_identities id updates s :
  Partial.id updates = None → Partial.createdAt updates = None →
  identity <$> updateNote id updates s = identity <$> s.
Proof.
  intros Hid Hat. unfold updateNote. rewrite <- list_fmap_compose.
  apply list_fmap_ext. intros k n _. simpl.
  destruct (decide (ProjectNote.id n = id)); [|done].
  by apply spread_identity.
Qed.

Lemma ids_of_identities s : ProjectNote.id <$> s = (identity <$> s).*1.
Proof. rewrite <- list_fmap_compose. by apply list_fmap_ext. Qed.

Lemma run_ops_cons op ops s : run_ops (op :: ops) s = run_ops ops (apply_op s op).
Proof. reflexivity. Qed.

Lemma apply_op_ids op s (later : list string) :
  keeps_identity op →
  NoDup ((ProjectNote.id <$> s) ++ (created_identities [op]).*1 ++ later) →
  NoDup ((ProjectNote.id <$> apply_op s op) ++ later).
Proof.
  destruct op as [c|id updates|id]; simpl.
  - intros _. unfold addNote. rewrite fmap_app. simpl.
    by rewrite <- app_assoc.
  - intros [Hid Hat]. by rewrite !ids_of_identities, updateNote_identities.
  - intros _. rewrite deleteNote_ids, !NoDup_app.
    intros (Hnd & Hdisj & Hlater). split; [by apply NoDup_filter|].
    split; [|done]. intros i Hi. apply Hdisj.
    apply list_elem_of_filter in Hi. tauto.
Qed.

Lemma apply_op_identities op s n :
  keeps_identity op → n ∈ apply_op s op →
  identity n ∈ (identity <$> s) ++ created_identities [op].
Proof.
  destruct op as [c|id updates|id]; simpl.
  - intros _. unfold addNote. rewrite elem_of_app, list_elem_of_singleton.
    intros [Hin | ->]; apply elem_of_app.
    + left. by apply list_elem_of_fmap_2.
    + right. apply list_elem_of_here.
  - intros [Hid Hat] Hin. rewrite app_nil_r.
    rewrite <- (updateNote_identities id updates s Hid Hat).
    by apply list_elem_of_fmap_2.
  - intros _ Hin. rewrite app_nil_r. apply elem_of_deleteNote in Hin as [Hin _].
    by apply list_elem_of_fmap_2.
Qed.
End identity.

(** C8, as the code has it.  Take a run of store operations in which the ids
    handed out by [uuidv4] are new (distinct from each other and from the ids
    already in the store) and no [updateNote] payload names [id] or
    [createdAt].  Then the notes of the resulting store have pairwise distinct
    ids, and the id and creation time of every note are those of a note of the
    initial store or those assigned by a [createNote] of the run. *)
Theorem ids_distinct_and_identity_fixed (ops : list store_op)
    (s0 : list ProjectNote.t) :
  Forall keeps_identity ops →
  NoDup ((ProjectNote.id <$> s0) ++ (created_identities ops).*1) →
  NoDup (ProjectNote.id <$> run_ops ops s0) ∧
  ∀ n : ProjectNote.t,
    n ∈ run_ops ops s0 →
    identity n ∈ (identity <$> s0) ++ created_identities ops.
Proof.
  revert s0. induction ops as [|op ops IH]; intros s0 Hkeep Hfresh.
  - simpl in *. rewrite !app_nil_r in *. split; [done|].
    intros n Hin. by apply list_elem_of_fmap_2.
  - apply Forall_cons in Hkeep as [Hop Hkeep].
    rewrite run_ops_cons.
    assert (Hsplit : created_identities (op :: ops) =
                     created_identities [op] ++ created_identities ops).
    { unfold created_identities. by rewrite (omap_app _ [op] ops). }
    rewrite Hsplit in *. rewrite fmap_app in Hfresh.
    destruct (IH (apply_op s0 op) Hkeep (apply_op_ids _ _ _ Hop Hfresh))
      as [Hnodup Hident].
    split; [done|]. intros n Hin. specialize (Hident n Hin).
    apply elem_of_app in Hident as [Hident | Hident].
    + apply list_elem_of_fmap in Hident as (n' & Heq & Hin').
      rewrite Heq. rewrite app_assoc. apply elem_of_app. left.
      by apply apply_op_identities.
    + rewrite app_assoc. apply elem_of_app. by right.
Qed.

(** A creation, a resize and a deletion on a store of two notes. *)
Lemma ids_distinct_and_identity_fixed_witness :
  NoDup (ProjectNote.id <$> run_ops sample_ops [note_a; note_b]) ∧
  ∀ n : ProjectNote.t,
    n ∈ run_ops sample_ops [note_a; note_b] →
    identity n ∈ (identity <$> [note_a; note_b]) ++ created_identities sample_ops.
Proof.
  apply (ids_distinct_and_identity_fixed sample_ops [note_a; note_b]).
  - repeat constructor.
  - apply (bool_decide_unpack _). vm_compute. exact I.
Defined.

(** C8, as stated, fails: [updateNote] with a payload naming [id] and
    [createdAt] overwrites both.  From a store with the distinct ids [a] and
    [b], renaming [a] to [b] leaves two notes with id [b], the first of them
    with a creation time no note was created with. *)
Lemma update_can_overwrite_identity :
  let s0 := [note_a; note_b] in
  let ops := [UpdateNote "a" (identity_update "b" 5)] in
  NoDup ((ProjectNote.id <$> s0) ++ (created_identities ops).*1) ∧
  ¬ NoDup (ProjectNote.id <$> run_ops ops s0) ∧
  ∃ n : ProjectNote.t,
    n ∈ run_ops ops s0 ∧
    identity n ∉ (identity <$> s0) ++ created_identities ops.
Proof.
  simpl. split; [|split].
  - apply (bool_decide_unpack _). vm_compute. exact I.
  - intros Hnd. apply NoDup_cons in Hnd as [Hnotin _].
    apply Hnotin. apply list_elem_of_here.
  - exists (spread note_a (identity_update "b" 5)). split.
    + apply list_elem_of_here.
    + unfold identity. simpl. rewrite !not_elem_of_cons.
      repeat split; try discriminate. apply not_elem_of_nil.
Qed.

(** ** Zoom range (C7) *)

Section zoom.
Implicit Types (s prev : CanvasState.t) (e : WheelEvent.t).

Lemma clamp_in_range (a : number) :
  MIN_ZOOM <= Math_min (Math_max a MIN_ZOOM) MAX_ZOOM ∧
  Math_min (Math_max a MIN_ZOOM) MAX_ZOOM <= MAX_ZOOM.
Proof.
  unfold Math_min, Math_max. split.
  - apply Q.min_glb; [apply Q.le_max_r | unfold MIN_ZOOM, MAX_ZOOM; lra].
  - apply Q.le_min_r.
Qed.

Lemma handleWheel_in_range canvasState e prev :
  zoom_in_range prev → zoom_in_range (handleWheel canvasState e prev).
Proof.
  intros Hprev. unfold handleWheel.
  destruct (WheelEvent.ctrlKey e || WheelEvent.metaKey e).
  - apply clamp_in_range.
  - exact Hprev.
Qed.

Lemma zoomOut_in_range s : zoom_in_range s → zoom_in_range (zoomOut s).
Proof.
  intros [Hlo Hhi]. unfold zoom_in_range, zoomOut, Math_max. simpl. split.
  - apply Q.le_max_r.
  - apply Q.max_lub; [|unfold MIN_ZOOM, MAX_ZOOM; lra].
    unfold MAX_ZOOM in *. lra.
Qed.

Lemma zoomIn_in_range s : zoom_in_range s → zoom_in_range (zoomIn s).
Proof.
  intros [Hlo Hhi]. unfold zoom_in_range, zoomIn, Math_min. simpl. split.
  - apply Q.min_glb; [|unfold MIN_ZOOM, MAX_ZOOM; lra].
    unfold MIN_ZOOM in *. lra.
  - apply Q.le_min_r.
Qed.

Lemma canvas_step_in_range s ev : zoom_in_range s → zoom_in_range (canvas_step s ev).
Proof.
  destruct ev; simpl.
  - apply handleWheel_in_range.
  - apply zoomOut_in_range.
  - apply zoomIn_in_range.
Qed.
End zoom.

(** C7.  From a canvas state whose zoom lies between [MIN_ZOOM] and [MAX_ZOOM],
    every sequence of wheel events (with or without a modifier key) and presses
    of the two zoom buttons leads to a state whose zoom lies in that range; and
    a wheel event with neither modifier leaves the zoom as it was and moves
    only the offset, by the deltas of the event. *)
Theorem zoom_stays_in_range (evs : list canvas_event) (s : CanvasState.t) :
  zoom_in_range s →
  zoom_in_range (canvas_run evs s) ∧
  ∀ (e : WheelEvent.t) (canvasState prev : CanvasState.t),
    WheelEvent.ctrlKey e = false → WheelEvent.metaKey e = false →
    CanvasState.zoom (handleWheel canvasState e prev) = CanvasState.zoom prev ∧
    CanvasState.offset (handleWheel canvasState e prev) =
      Coordinates.mk
        (Coordinates.x (CanvasState.offset prev) - WheelEvent.deltaX e)
        (Coordinates.y (CanvasState.offset prev) - WheelEvent.deltaY e).
Proof.
  intros Hs. split.
  - revert s Hs. unfold canvas_run.
    induction evs as [|ev evs IH]; intros s Hs; simpl; [done|].
    apply IH. by apply canvas_step_in_range.
  - intros e canvasState prev Hctrl Hmeta. unfold handleWheel.
    rewrite Hctrl, Hmeta. done.
Qed.

(** Zooming in and out with the wheel and the buttons, with a pan in between,
    from the initial canvas state. *)
Lemma zoom_stays_in_range_witness :
  zoom_in_range (canvas_run sample_canvas_events canvas_home).
Proof.
  apply (zoom_stays_in_range sample_canvas_events canvas_home).
  split; unfold MIN_ZOOM, MAX_ZOOM; simpl; lra.
Defined.

(** ** Failure of the AI assist (C2) *)

Lemma generateProjectIdeas_failure apiKey generateContent title plainText :
  assist_fails apiKey generateContent title plainText →
  generateProjectIdeas apiKey generateContent title plainText =
  match apiKey with EmptyString => api_key_missing | _ => generate_failed end.
Proof.
  unfold generateProjectIdeas. intros [-> | Hrej]; [done|].
  destruct apiKey; [done|]. by rewrite Hrej.
Qed.

Lemma failure_messages_have_no_newline :
  replace_newlines api_key_missing = api_key_missing ∧
  replace_newlines generate_failed = generate_failed.
Proof. split; reflexivity. Qed.

(** C2, as the code has it.  When the AI-assist call fails,
    [generateProjectIdeas] returns (it does not raise) a fixed message: the
    missing-key message when no API key is configured, the generation-failed
    message when the collaborator rejects.  [handleAiBrainstorm] treats it as a
    suggestion: the content of the note becomes its old content followed by the
    suggestion header and that message. *)
Theorem assist_failure_message_is_appended (apiKey : string)
    (generateContent : string → string → generateContent_outcome)
    (textContent : string → option string)
    (note : ProjectNote.t) (prev : list ProjectNote.t) :
  let plainText := or_else (textContent (ProjectNote.content note)) EmptyString in
  let message :=
    match apiKey with EmptyString => api_key_missing | _ => generate_failed end in
  assist_fails apiKey generateContent (ProjectNote.title note) plainText →
  generateProjectIdeas apiKey generateContent (ProjectNote.title note) plainText
    = message ∧
  ∀ n : ProjectNote.t,
    n ∈ handleAiBrainstorm apiKey generateContent textContent note prev →
    ProjectNote.id n = ProjectNote.id note →
    ProjectNote.content n =
      ProjectNote.content note +:+ suggestion_header +:+ message.
Proof.
  intros plainText message Hfail.
  pose proof (generateProjectIdeas_failure _ _ _ _ Hfail) as Hmsg.
  split; [exact Hmsg|]. intros n Hin Hid. unfold handleAiBrainstorm in Hin.
  destruct (updateNote_target _ _ _ _ Hin Hid eq_refl) as (n0 & _ & _ & ->).
  simpl. fold plainText. rewrite Hmsg. subst message.
  destruct failure_messages_have_no_newline as [Hkey Hgen].
  destruct apiKey; by rewrite ?Hkey, ?Hgen.
Qed.

(** The collaborator rejects while an API key is configured. *)
Lemma assist_failure_message_is_appended_witness :
  generateProjectIdeas "key" rejecting (ProjectNote.title note_a)
    (or_else (plain (ProjectNote.content note_a)) EmptyString) = generate_failed ∧
  ∀ n : ProjectNote.t,
    n ∈ handleAiBrainstorm "key" rejecting plain note_a [note_a; note_b] →
    ProjectNote.id n = ProjectNote.id note_a →
    ProjectNote.content n =
      ProjectNote.content note_a +:+ suggestion_header +:+ generate_failed.
Proof.
  apply (assist_failure_message_is_appended "key" rejecting plain note_a
           [note_a; note_b]).
  right. reflexivity.
Defined.

(** C2, as stated, fails: with no API key configured, and also when the
    collaborator rejects, the content of the note is changed. *)
Lemma assist_failure_changes_content :
  let plainText := or_else (plain (ProjectNote.content note_a)) EmptyString in
  (assist_fails EmptyString rejecting (ProjectNote.title note_a) plainText ∧
   ∃ n : ProjectNote.t,
     n ∈ handleAiBrainstorm EmptyString rejecting plain note_a [note_a; note_b] ∧
     ProjectNote.id n = ProjectNote.id note_a ∧
     ProjectNote.content n ≠ ProjectNote.content note_a) ∧
  (assist_fails "key" rejecting (ProjectNote.title note_a) plainText ∧
   ∃ n : ProjectNote.t,
     n ∈ handleAiBrainstorm "key" rejecting plain note_a [note_a; note_b] ∧
     ProjectNote.id n = ProjectNote.id note_a ∧
     ProjectNote.content n ≠ ProjectNote.content note_a).
Proof.
  simpl. split; (split; [by (left + right)|]).
  - eexists. split; [apply list_elem_of_here|]. split; [reflexivity|].
    vm_compute. discriminate.
  - eexists. split; [apply list_elem_of_here|]. split; [reflexivity|].
    vm_compute. discriminate.
Qed.

(** ** Placement: the bounded spiral search (C3, C4) *)

Lemma num_lt_spec (a b : number) : num_lt a b = true ↔ a < b.
Proof.
  unfold num_lt. rewrite Qlt_alt. destruct (a ?= b); split; congruence.
Qed.

Section search_facts.
Variables (notes : list ProjectNote.t) (startX startY : number).

Lemma search_Some k w p :
  Placement.search notes startX startY k w = Some p →
  Placement.checkOverlap notes (fst p) (snd p) = false.
Proof.
  revert w. induction k as [|k IH]; intros w; simpl; [done|].
  destruct (Placement.checkOverlap notes
              (Placement.tryX startX (Placement.advance w))
              (Placement.tryY startY (Placement.advance w))) eqn:Hov; simpl.
  - apply IH.
  - intros [= <-]. exact Hov.
Qed.

Lemma search_None k w :
  Placement.search notes startX startY k w = None ↔
  ∀ i : nat, (1 ≤ i ≤ k)%nat →
    Placement.checkOverlap notes
      (Placement.tryX startX (Nat.iter i Placement.advance w))
      (Placement.tryY startY (Nat.iter i Placement.advance w)) = true.
Proof.
  revert w. induction k as [|k IH]; intros w; simpl.
  - split; [intros _ i Hi; lia | done].
  - destruct (Placement.checkOverlap notes
                (Placement.tryX startX (Placement.advance w))
                (Placement.tryY startY (Placement.advance w))) eqn:Hov; simpl.
    + rewrite IH. split.
      * intros Hall i Hi. destruct i as [|[|i]]; [lia| |].
        -- exact Hov.
        -- rewrite Nat.iter_succ_r. apply Hall. lia.
      * intros Hall i Hi. rewrite <- Nat.iter_succ_r. apply Hall. lia.
    + split; [done|]. intros Hall. specialize (Hall 1%nat). simpl in Hall.
      rewrite Hov in Hall. discriminate Hall. lia.
Qed.

Lemma finalPosition_exhausted :
  Placement.checkOverlap notes startX startY = true →
  no_free_cell notes startX startY →
  Placement.finalPosition notes startX startY = (startX, startY).
Proof.
  intros Hstart Hnone. unfold Placement.finalPosition. rewrite Hstart.
  assert (Hsearch : Placement.search notes startX startY 100 Placement.walk_init = None).
  { apply search_None. intros i Hi. exact (Hnone i Hi). }
  by rewrite Hsearch.
Qed.

Lemma finalPosition_free :
  (Placement.checkOverlap notes startX startY = false ∨
   ∃ i : nat, (1 ≤ i ≤ 100)%nat ∧
     Placement.checkOverlap notes
       (fst (Placement.candidate startX startY i))
       (snd (Placement.candidate startX startY i)) = false) →
  Placement.checkOverlap notes
    (fst (Placement.finalPosition notes startX startY))
    (snd (Placement.finalPosition notes startX startY)) = false.
Proof.
  intros Hfree. unfold Placement.finalPosition.
  destruct (Placement.checkOverlap notes startX startY) eqn:Hstart; [|exact Hstart].
  destruct Hfree as [Hfree | (i & Hi & Hfree)]; [done|].
  destruct (Placement.search notes startX startY 100 Placement.walk_init)
    as [p|] eqn:Hsearch.
  - by apply search_Some in Hsearch.
  - rewrite search_None in Hsearch. specialize (Hsearch i Hi).
    unfold Placement.candidate in Hfree. simpl in Hfree. congruence.
Qed.
End search_facts.

Lemma no_free_cellb_spec notes startX startY :
  no_free_cellb notes startX startY = true → no_free_cell notes startX startY.
Proof.
  unfold no_free_cellb, no_free_cell. rewrite forallb_forall.
  intros Hall i Hi. apply Hall, in_seq. lia.
Qed.

(** C3, as the code has it.  When the desired position overlaps a note and
    none of the 100 spiral cells tested is free, the position of the new note
    is the desired position it started from. *)
Theorem exhausted_search_returns_start (notes : list ProjectNote.t)
    (startX startY : number) :
  Placement.checkOverlap notes startX startY = true →
  no_free_cell notes startX startY →
  Placement.finalPosition notes startX startY = (startX, startY).
Proof. apply finalPosition_exhausted. Qed.

(** One note covering the viewport and the whole spiral. *)
Lemma exhausted_search_returns_start_witness :
  Placement.finalPosition [huge_note]
    (Placement.startX canvas_home window_1000_800)
    (Placement.startY canvas_home window_1000_800) =
  (Placement.startX canvas_home window_1000_800,
   Placement.startY canvas_home window_1000_800).
Proof.
  apply (exhausted_search_returns_start [huge_note]
           (Placement.startX canvas_home window_1000_800)
           (Placement.startY canvas_home window_1000_800)).
  - vm_compute. reflexivity.
  - apply no_free_cellb_spec. vm_compute. reflexivity.
Defined.

(** C3, as stated, fails: with one note covering the viewport and the whole
    spiral, no cell is free, and the position returned is not the last
    candidate tested (the hundredth cell of the spiral). *)
Lemma exhausted_search_is_not_last_candidate :
  let startX := Placement.startX canvas_home window_1000_800 in
  let startY := Placement.startY canvas_home window_1000_800 in
  Placement.checkOverlap [huge_note] startX startY = true ∧
  no_free_cell [huge_note] startX startY ∧
  ¬ same_position (Placement.finalPosition [huge_note] startX startY)
                  (Placement.candidate startX startY 100).
Proof.
  simpl. split; [|split].
  - vm_compute. reflexivity.
  - apply no_free_cellb_spec. vm_compute. reflexivity.
  - intros [Hx _]. apply Qeq_bool_iff in Hx. vm_compute in Hx. discriminate.
Qed.

Section separation.
Implicit Types (s : list ProjectNote.t) (calls : list AddNoteCall.t)
  (a b : ProjectNote.t).

Lemma rect_overlapb_spec g a b : rect_overlapb g a b = true ↔ rect_overlap g a b.
Proof.
  unfold rect_overlapb, rect_overlap.
  rewrite !andb_true_iff, !num_lt_spec. tauto.
Qed.

Lemma rect_overlap_sym g a b : rect_overlap g a b → rect_overlap g b a.
Proof. unfold rect_overlap. tauto. Qed.

(** For a note of the default size, the test of [checkOverlap] at its position
    is [rect_overlap] with the gap. *)
Lemma overlaps_note_spec b a :
  ProjectNote.width b = Placement.width →
  ProjectNote.height b = Placement.height →
  Placement.overlaps_note (ProjectNote.x b) (ProjectNote.y b) a = true ↔
  rect_overlap Placement.gap b a.
Proof.
  intros Hw Hh. unfold Placement.overlaps_note, rect_overlap.
  rewrite !andb_true_iff, !num_lt_spec, Hw, Hh. tauto.
Qed.

Lemma checkOverlap_false s x y a :
  Placement.checkOverlap s x y = false → a ∈ s →
  Placement.overlaps_note x y a = false.
Proof.
  unfold Placement.checkOverlap. intros Hnone Hin.
  destruct (Placement.overlaps_note x y a) eqn:Hov; [|done].
  assert (Hex : existsb (Placement.overlaps_note x y) s = true).
  { apply existsb_exists. exists a. split; [by apply list_elem_of_In | done]. }
  congruence.
Qed.

Lemma newNote_clear c s a :
  finds_free_position c s → a ∈ s →
  ¬ rect_overlap Placement.gap (newNote c s) a.
Proof.
  intros Hfree Hin Hov.
  apply (overlaps_note_spec (newNote c s) a eq_refl eq_refl) in Hov.
  pose proof (finalPosition_free s _ _ Hfree) as Hfinal.
  pose proof (checkOverlap_false _ _ _ a Hfinal Hin) as Hclear.
  simpl in Hov. congruence.
Qed.

Lemma create_run_created calls s :
  create_run calls s = s ++ created_notes calls s.
Proof.
  revert s. induction calls as [|c calls IH]; intros s; simpl.
  - by rewrite app_nil_r.
  - unfold create_run in *. simpl. rewrite IH. unfold addNote.
    by rewrite <- app_assoc.
Qed.

Lemma created_clear_of_store calls s a b :
  every_call_finds calls s → b ∈ created_notes calls s → a ∈ s →
  ¬ rect_overlap Placement.gap b a.
Proof.
  revert s. induction calls as [|c calls IH]; intros s; simpl.
  - intros _ Hb. by apply elem_of_nil in Hb.
  - intros [Hfree Hrest] Hb Ha. apply elem_of_cons in Hb as [-> | Hb].
    + by apply newNote_clear.
    + apply (IH (addNote c s)); [done..|].
      unfold addNote. apply elem_of_app. by left.
Qed.

Lemma created_pairwise_clear calls s (i j : nat) a b :
  every_call_finds calls s → (i < j)%nat →
  created_notes calls s !! i = Some a → created_notes calls s !! j = Some b →
  ¬ rect_overlap Placement.gap b a.
Proof.
  revert s i j. induction calls as [|c calls IH]; intros s i j; simpl; [done|].
  intros [Hfree Hrest] Hlt Ha Hb. destruct j as [|j]; [lia|].
  destruct i as [|i]; simpl in *.
  - injection Ha as <-.
    apply (created_clear_of_store calls (addNote c s)); [done| |].
    + by apply list_elem_of_lookup_2 in Hb.
    + unfold addNote. apply elem_of_app. right. apply list_elem_of_here.
  - apply (IH (addNote c s) i j); [done|lia|done..].
Qed.
End separation.

(** C4, as the code has it.  Take a run of [createNote] calls, with nothing in
    between, in each of which the desired position or one of the 100 spiral
    cells is free.  The store after the run is the store before it followed by
    the created notes; the rectangles of any two created notes do not meet when
    one of them is widened by the gap of 24 on every side, and neither do the
    rectangles of a created note and of a note that was in the store before. *)
Theorem created_notes_keep_the_gap (calls : list AddNoteCall.t)
    (s0 : list ProjectNote.t) :
  every_call_finds calls s0 →
  create_run calls s0 = s0 ++ created_notes calls s0 ∧
  (∀ (i j : nat) (a b : ProjectNote.t),
     i ≠ j →
     created_notes calls s0 !! i = Some a →
     created_notes calls s0 !! j = Some b →
     ¬ rect_overlap Placement.gap a b) ∧
  (∀ a b : ProjectNote.t,
     a ∈ s0 → b ∈ created_notes calls s0 →
     ¬ rect_overlap Placement.gap a b).
Proof.
  intros Hfinds. split; [apply create_run_created|]. split.
  - intros i j a b Hne Ha Hb Hov.
    destruct (decide (i < j)%nat) as [Hlt|Hge].
    + apply rect_overlap_sym in Hov.
      by apply (created_pairwise_clear calls s0 i j a b).
    + apply (created_pairwise_clear calls s0 j i b a); [done|lia|done..].
  - intros a b Ha Hb Hov. apply rect_overlap_sym in Hov.
    by apply (created_clear_of_store calls s0 a b).
Qed.

(** Three notes created one after the other from the same viewport: the first
    at the desired position, the next two on the first cells of the spiral. *)
Lemma created_notes_keep_the_gap_witness :
  let calls := [sample_call "p"; sample_call "q"; sample_call "r"] in
  create_run calls [] = [] ++ created_notes calls [] ∧
  (∀ (i j : nat) (a b : ProjectNote.t),
     i ≠ j →
     created_notes calls [] !! i = Some a →
     created_notes calls [] !! j = Some b →
     ¬ rect_overlap Placement.gap a b) ∧
  (∀ a b : ProjectNote.t,
     a ∈ [] → b ∈ created_notes calls [] →
     ¬ rect_overlap Placement.gap a b).
Proof.
  apply (created_notes_keep_the_gap
           [sample_call "p"; sample_call "q"; sample_call "r"] []).
  simpl. split; [left; reflexivity|]. split; [|split; [|exact I]].
  - right. exists 1%nat. split; [lia|]. vm_compute. reflexivity.
  - right. exists 2%nat. split; [lia|]. vm_compute. reflexivity.
Defined.

Lemma first_and_last_collide_spec (s : list ProjectNote.t) :
  first_and_last_collide s = true →
  ∃ a b : ProjectNote.t,
    s !! 0%nat = Some a ∧
    s !! 101%nat = Some b ∧
    ProjectNote.id a ≠ ProjectNote.id b ∧
    rect_overlap Placement.gap a b ∧
    rect_overlap 0 a b ∧
    same_position (ProjectNote.x a, ProjectNote.y a) (ProjectNote.x b, ProjectNote.y b).
Proof.
  unfold first_and_last_collide. intros Hcheck.
  destruct (s !! 0%nat) as [a|]; [|discriminate].
  destruct (s !! 101%nat) as [b|]; [|discriminate].
  rewrite !andb_true_iff, negb_true_iff, String.eqb_neq in Hcheck.
  rewrite !rect_overlapb_spec, !Qeq_bool_iff in Hcheck.
  destruct Hcheck as ((((Hid & Hgap) & Hzero) & Hx) & Hy).
  exists a, b. do 2 (split; [reflexivity|]).
  split; [exact Hid|]. split; [exact Hgap|]. split; [exact Hzero|].
  split; [exact Hx | exact Hy].
Qed.

(** C4, as stated, fails: after 101 notes created from the same viewport have
    taken the desired position and the 100 cells of the spiral, the next one is
    put at the desired position again, on top of the first.  The two notes have
    different ids, their rectangles meet with the gap and without it, and they
    sit at the same point. *)
Lemma hundred_and_second_note_covers_first :
  ∃ a b : ProjectNote.t,
    create_run crowd [] !! 0%nat = Some a ∧
    create_run crowd [] !! 101%nat = Some b ∧
    ProjectNote.id a ≠ ProjectNote.id b ∧
    rect_overlap Placement.gap a b ∧
    rect_overlap 0 a b ∧
    same_position (ProjectNote.x a, ProjectNote.y a) (ProjectNote.x b, ProjectNote.y b).
Proof.
  apply first_and_last_collide_spec. vm_compute. reflexivity.
Qed.

(** ** The debounced save (C5, C6) *)

Section debounce.
Variable backend : Z → bool.
Implicit Types (st : App.t) (tm : timeout).

Lemma elapse_not_due st tm (t : Z) :
  App.timer st = Some tm → (t < due tm)%Z →
  elapse backend t st = set_clock (Z.max (App.clock st) t) st.
Proof.
  intros Htimer Hlt. unfold elapse. rewrite Htimer.
  by rewrite (proj2 (Z.leb_gt _ _) Hlt).
Qed.

Lemma elapse_due st tm (t : Z) :
  App.timer st = Some tm → (due tm ≤ t)%Z →
  elapse backend t st =
  let fired :=
    timer_callback backend tm
      (set_clock (Z.max (App.clock st) (due tm)) (set_timer None st)) in
  set_clock (Z.max (App.clock fired) t) fired.
Proof.
  intros Htimer Hle. unfold elapse. rewrite Htimer.
  by rewrite (proj2 (Z.leb_le _ _) Hle).
Qed.

(** What a mutation leaves behind in a session with a user, when no timer is
    due by then: the mutated notes, the status [saving], and one pending timer,
    due two seconds later, that closed over the mutated notes. *)
Lemma mutate_restarts_timer st user (t : Z)
    (f : list ProjectNote.t → list ProjectNote.t) :
  App.user st = Some user →
  (∀ tm, App.timer st = Some tm → (t < due tm)%Z) →
  mutate backend st (t, f) =
  {| App.user := Some user; App.driveFileId := App.driveFileId st;
     App.notes := f (App.notes st); App.saveStatus := saving;
     App.timer :=
       Some (mkTimeout (Z.max (App.clock st) t + 2000) (f (App.notes st)) user
               (App.driveFileId st));
     App.clock := Z.max (App.clock st) t;
     App.writes := App.writes st |}.
Proof.
  intros Huser Hpending. unfold mutate. cbn [fst snd].
  assert (Hel : elapse backend t st = set_clock (Z.max (App.clock st) t) st).
  { destruct (App.timer st) as [tm|] eqn:Htimer.
    - apply (elapse_not_due st tm); [done|]. by apply Hpending.
    - unfold elapse. by rewrite Htimer. }
  rewrite Hel. unfold save_effect. simpl. rewrite Huser.
  unfold set_timer, set_saveStatus, set_notes, set_clock. simpl.
  by rewrite Huser.
Qed.

Lemma timer_fires st tm (t : Z) :
  App.timer st = Some tm → (App.clock st ≤ due tm)%Z → (due tm ≤ t)%Z →
  elapse backend t st =
  {| App.user := App.user st; App.driveFileId := App.driveFileId st;
     App.notes := App.notes st;
     App.saveStatus := if backend (due tm) then saved else error;
     App.timer := None; App.clock := t;
     App.writes :=
       App.writes st ++
       [mkWrite (due tm) (save_destination (timeout_user tm) (timeout_driveFileId tm))
                (timeout_notes tm) (backend (due tm))] |}.
Proof.
  intros Htimer Hclock Hle. rewrite (elapse_due st tm t Htimer Hle).
  unfold timer_callback. simpl.
  rewrite (Z.max_r _ _ Hclock).
  destruct (backend (due tm)); simpl; by rewrite (Z.max_r _ _ Hle).
Qed.
End debounce.

(** C5.  In a session with a user, at time 0 and with no save already due,
    let the note collection be mutated at 0 ms, 500 ms and 1000 ms.  Each
    mutation sets the status to [saving] at once and leaves exactly one pending
    timer, due 2000 ms after it and holding the notes as of that mutation: the
    timer of the mutation before is cancelled and replaced.  No write is made
    before 3000 ms; from 3000 ms on exactly one write has been made, at
    3000 ms, and its payload is the note collection as of 1000 ms. *)
Theorem debounce_coalesces_three_mutations (backend : Z → bool) (st : App.t)
    (user : User.t) (f1 f2 f3 : list ProjectNote.t → list ProjectNote.t) :
  App.user st = Some user → App.clock st = 0%Z →
  (∀ tm : timeout, App.timer st = Some tm → (0 < due tm)%Z) →
  let s1 := mutate backend st (0%Z, f1) in
  let s2 := mutate backend s1 (500%Z, f2) in
  let s3 := mutate backend s2 (1000%Z, f3) in
  let at_1s := f3 (f2 (f1 (App.notes st))) in
  let file := App.driveFileId st in
  mutations backend [(0%Z, f1); (500%Z, f2); (1000%Z, f3)] st = s3 ∧
  (App.saveStatus s1 = saving ∧
   App.timer s1 = Some (mkTimeout 2000 (App.notes s1) user file)) ∧
  (App.saveStatus s2 = saving ∧
   App.timer s2 = Some (mkTimeout 2500 (App.notes s2) user file)) ∧
  (App.saveStatus s3 = saving ∧
   App.timer s3 = Some (mkTimeout 3000 (App.notes s3) user file)) ∧
  App.notes s3 = at_1s ∧
  App.writes s3 = App.writes st ∧
  (∀ t : Z, (1000 ≤ t < 3000)%Z →
     App.writes (elapse backend t s3) = App.writes st) ∧
  (∀ t : Z, (3000 ≤ t)%Z →
     App.writes (elapse backend t s3) =
       App.writes st ++
       [mkWrite 3000 (save_destination user file) at_1s (backend 3000%Z)] ∧
     App.timer (elapse backend t s3) = None).
Proof.
  intros Huser Hclock Hpending s1 s2 s3 at_1s file.
  assert (H1 : s1 =
    App.mk (Some user) file (f1 (App.notes st)) saving
      (Some (mkTimeout 2000 (f1 (App.notes st)) user file)) 0 (App.writes st)).
  { subst s1. rewrite (mutate_restarts_timer backend st user 0 f1 Huser Hpending).
    by rewrite Hclock. }
  assert (H2 : s2 =
    App.mk (Some user) file (f2 (f1 (App.notes st))) saving
      (Some (mkTimeout 2500 (f2 (f1 (App.notes st))) user file)) 500 (App.writes st)).
  { subst s2. rewrite H1.
    rewrite (mutate_restarts_timer backend _ user 500 f2); [done..|].
    intros tm [= <-]. simpl. lia. }
  assert (H3 : s3 =
    App.mk (Some user) file at_1s saving
      (Some (mkTimeout 3000 at_1s user file)) 1000 (App.writes st)).
  { subst s3. rewrite H2.
    rewrite (mutate_restarts_timer backend _ user 1000 f3); [done..|].
    intros tm [= <-]. simpl. lia. }
  split; [reflexivity|].
  rewrite H1, H2, H3. split_and!; try reflexivity.
  - intros t Ht.
    rewrite (elapse_not_due backend _ (mkTimeout 3000 at_1s user file)); [done..|].
    simpl. lia.
  - intros t Ht.
    rewrite (timer_fires backend _ (mkTimeout 3000 at_1s user file) t);
      [done..| simpl; lia | simpl; lia].
Qed.

(** A guest session with a save pending for time 2000, and three mutations:
    a note is created, resized and deleted.  Five seconds after the first
    mutation one write has been made. *)
Lemma debounce_coalesces_three_mutations_witness :
  App.writes
    (elapse always_ok 5000
       (mutations always_ok
          [(0%Z, addNote (sample_call "c"));
           (500%Z, updateNote "c" (size_update 500 400));
           (1000%Z, deleteNote "a")] guest_app)) =
  [mkWrite 3000 LocalStorage
     (deleteNote "a" (updateNote "c" (size_update 500 400)
                        (addNote (sample_call "c") [note_a]))) true].
Proof.
  destruct (debounce_coalesces_three_mutations always_ok guest_app guest
              (addNote (sample_call "c")) (updateNote "c" (size_update 500 400))
              (deleteNote "a") eq_refl eq_refl)
    as (Hrun & _ & _ & _ & _ & _ & _ & Hfire).
  - intros tm [= <-]. reflexivity.
  - rewrite Hrun. destruct (Hfire 5000%Z) as [Hwrites _]; [lia|]. exact Hwrites.
Defined.

(** C6.  In a session with a user and a save pending, let the write made when
    the timer fires fail.  Then the status becomes [error], the note collection
    in memory is what it was, and the failed write is in the log.  A mutation
    made afterwards sets the status to [saving]; when its own timer fires and
    the write succeeds, the status becomes [saved] and the write made carries
    the whole current note collection. *)
Theorem failed_save_loses_nothing_and_next_cycle_saves (backend : Z → bool)
    (st : App.t) (user : User.t) (tm : timeout) (t1 t2 : Z)
    (f : list ProjectNote.t → list ProjectNote.t) :
  App.user st = Some user → App.timer st = Some tm →
  (App.clock st ≤ due tm)%Z →
  backend (due tm) = false →
  (due tm ≤ t1)%Z → backend (t1 + 2000)%Z = true → (t1 + 2000 ≤ t2)%Z →
  let failed := elapse backend (due tm) st in
  let dirty := mutate backend failed (t1, f) in
  let done := elapse backend t2 dirty in
  (App.saveStatus failed = error ∧ App.notes failed = App.notes st ∧
   App.writes failed =
     App.writes st ++
     [mkWrite (due tm) (save_destination (timeout_user tm) (timeout_driveFileId tm))
              (timeout_notes tm) false]) ∧
  (App.saveStatus dirty = saving ∧ App.notes dirty = f (App.notes st) ∧
   App.writes dirty = App.writes failed) ∧
  (App.saveStatus done = saved ∧ App.notes done = f (App.notes st) ∧
   App.writes done =
     App.writes failed ++
     [mkWrite (t1 + 2000) (save_destination user (App.driveFileId st))
              (App.notes done) true]).
Proof.
  intros Huser Htimer Hclock Hfail Ht1 Hok Ht2 failed dirty done.
  pose proof (timer_fires backend st tm (due tm) Htimer Hclock (Z.le_refl _))
    as Hfailed.
  fold failed in Hfailed. rewrite Hfail in Hfailed.
  clearbody failed. subst failed. subst done dirty.
  rewrite (mutate_restarts_timer backend _ user t1 f);
    [|exact Huser|intros tm'; simpl; discriminate].
  cbn [App.clock App.notes App.writes App.driveFileId].
  rewrite (Z.max_r _ _ Ht1).
  rewrite (timer_fires backend _
             (mkTimeout (t1 + 2000) (f (App.notes st)) user (App.driveFileId st)) t2);
    [|reflexivity|simpl; lia..].
  cbn [due timeout_notes timeout_user timeout_driveFileId App.clock App.notes
       App.writes App.driveFileId App.saveStatus App.user].
  rewrite Hok. split_and!; reflexivity.
Qed.

(** The pending save of the guest session fails at time 2000; the note is
    resized at time 2500 and saved at time 4500. *)
Lemma failed_save_loses_nothing_and_next_cycle_saves_witness :
  let f := updateNote "a" (size_update 500 400) in
  let failed := elapse fails_at_2000 2000 guest_app in
  let dirty := mutate fails_at_2000 failed (2500%Z, f) in
  let done := elapse fails_at_2000 5000 dirty in
  (App.saveStatus failed = error ∧ App.notes failed = [note_a]) ∧
  App.saveStatus dirty = saving ∧
  (App.saveStatus done = saved ∧ App.notes done = f [note_a] ∧
   App.writes done =
     App.writes failed ++ [mkWrite 4500 LocalStorage (App.notes done) true]).
Proof.
  intros f failed dirty done.
  destruct (failed_save_loses_nothing_and_next_cycle_saves fails_at_2000
              guest_app guest (mkTimeout 2000 [note_a] guest None) 2500 5000 f
              eq_refl eq_refl)
    as ((Herr & Hkept & _) & (Hsaving & _) & Hsaved).
  - simpl. lia.
  - reflexivity.
  - simpl. lia.
  - reflexivity.
  - simpl. lia.
  - split; [split; [exact Herr | exact Hkept]|]. split; [exact Hsaving|].
    exact Hsaved.
Defined.

(** * Further properties of the code *)

(** ** Pointer gestures: dragging a note, panning the canvas *)

Section gestures.
Implicit Types (ws : Workspace.t) (e : MouseEvent.t) (moves : list MouseEvent.t).







End gestures.






(** ** The geometry floors under every action of the user interface *)

Section floors.
Implicit Types (s : list ProjectNote.t) (n : ProjectNote.t).

Lemma spread_keeps_size n updates :
  Partial.width updates = None → Partial.height updates = None →
  floors_hold n → floors_hold (spread n updates).
Proof.
  intros Hw Hh. unfold floors_hold, spread. simpl. by rewrite Hw, Hh.
Qed.

Lemma updateNote_keeps_floors id updates s :
  (∀ n, floors_hold n → floors_hold (spread n updates)) →
  Forall floors_hold s → Forall floors_hold (updateNote id updates s).
Proof.
  intros Hspread Hall. unfold updateNote. apply Forall_fmap.
  eapply Forall_impl; [exact Hall|]. intros n Hn. simpl.
  destruct (decide (ProjectNote.id n = id)); [by apply Hspread | done].
Qed.

Lemma drag_notes_keeps_floors id dx dy s :
  Forall floors_hold s → Forall floors_hold (drag_notes id dx dy s).
Proof.
  intros Hall. unfold drag_notes. apply Forall_fmap.
  eapply Forall_impl; [exact Hall|]. intros n Hn. simpl.
  destruct (decide (Some (ProjectNote.id n) = id)); [|done].
  by apply spread_keeps_size.
Qed.

Lemma newNote_floors c s : floors_hold (newNote c s).
Proof.
  unfold floors_hold, newNote, Placement.width, Placement.height. simpl.
  split; lra.
Qed.

Lemma apply_action_keeps_floors a s :
  Forall floors_hold s → Forall floors_hold (apply_action s a).
Proof.
  intros Hall. destruct a; simpl.
  - unfold addNote. apply Forall_app. split; [done|].
    apply Forall_singleton, newNote_floors.
  - by apply drag_notes_keeps_floors.
  - apply updateNote_keeps_floors; [|done]. intros n _.
    split; simpl; apply Math_max_ge_l.
  - destruct editor; [|done].
    apply updateNote_keeps_floors; [|done]. intros n. by apply spread_keeps_size.
  - apply updateNote_keeps_floors; [|done]. intros n. by apply spread_keeps_size.
  - apply updateNote_keeps_floors; [|done]. intros n. by apply spread_keeps_size.
  - apply updateNote_keeps_floors; [|done]. intros n. by apply spread_keeps_size.
  - apply updateNote_keeps_floors; [|done]. intros n. by apply spread_keeps_size.
  - apply Forall_forall. intros n Hin. apply elem_of_deleteNote in Hin as [Hin _].
    by apply (proj1 (Forall_forall _ _) Hall).
Qed.
End floors.

(** X4.  The geometry floors are an invariant of the user interface: if every
    note of the store has width at least 300 and height at least 200, so has
    every note after any sequence of the actions the two components offer
    (adding a note, dragging, resizing at a positive zoom, editing content,
    colour, priority or title, AI brainstorm, deleting). *)
Theorem every_action_keeps_floors (actions : list note_action)
    (s0 : list ProjectNote.t) :
  Forall action_ok actions →
  Forall floors_hold s0 →
  Forall floors_hold (run_actions actions s0).
Proof.
  intros _. revert s0. unfold run_actions.
  induction actions as [|a actions IH]; intros s0 Hall; simpl; [done|].
  by apply IH, apply_action_keeps_floors.
Qed.

(** A note is added, the first is resized to the floors, the new one dragged
    away, content edited, a brainstorm fails, a note is deleted. *)
Lemma every_action_keeps_floors_witness :
  Forall floors_hold (run_actions sample_actions [note_a; note_b]).
Proof.
  apply (every_action_keeps_floors sample_actions [note_a; note_b]).
  - repeat constructor.
  - repeat constructor; unfold floors_hold; simpl; lra.
Defined.

(** ** Placement: order and reach of the spiral search *)

Section spiral.
Variables (notes : list ProjectNote.t) (startX startY : number).

Lemma search_first_free (k i : nat) (w : Placement.walk) :
  (1 ≤ i ≤ k)%nat →
  Placement.checkOverlap notes
    (Placement.tryX startX (Nat.iter i Placement.advance w))
    (Placement.tryY startY (Nat.iter i Placement.advance w)) = false →
  (∀ j : nat, (1 ≤ j < i)%nat →
     Placement.checkOverlap notes
       (Placement.tryX startX (Nat.iter j Placement.advance w))
       (Placement.tryY startY (Nat.iter j Placement.advance w)) = true) →
  Placement.search notes startX startY k w =
  Some (Placement.tryX startX (Nat.iter i Placement.advance w),
        Placement.tryY startY (Nat.iter i Placement.advance w)).
Proof.
  revert i w. induction k as [|k IH]; intros i w Hi Hfree Hbefore; [lia|].
  simpl. destruct i as [|[|i]]; [lia| |].
  - simpl in Hfree. by rewrite Hfree.
  - assert (H1 : (1 ≤ 1 < S (S i))%nat) by lia.
    apply Hbefore in H1. simpl in H1. rewrite H1. simpl negb. cbv iota.
    rewrite !(Nat.iter_succ_r (S i)) in *.
    apply IH; [lia|exact Hfree|].
    intros j Hj. rewrite <- Nat.iter_succ_r. apply Hbefore. lia.
Qed.

Lemma search_Some_candidate (k : nat) (w : Placement.walk) (p : number * number) :
  Placement.search notes startX startY k w = Some p →
  ∃ i : nat, (1 ≤ i ≤ k)%nat ∧
    p = (Placement.tryX startX (Nat.iter i Placement.advance w),
         Placement.tryY startY (Nat.iter i Placement.advance w)).
Proof.
  revert w. induction k as [|k IH]; intros w; simpl; [done|].
  destruct (negb _).
  - intros [= <-]. exists 1%nat. split; [lia|done].
  - intros Hsearch. destruct (IH _ Hsearch) as (i & Hi & ->).
    exists (S i). split; [lia|]. by rewrite !Nat.iter_succ_r.
Qed.

Lemma finalPosition_cases :
  Placement.finalPosition notes startX startY = (startX, startY) ∨
  ∃ i : nat, (1 ≤ i ≤ 100)%nat ∧
    Placement.finalPosition notes startX startY = Placement.candidate startX startY i.
Proof.
  unfold Placement.finalPosition.
  destruct (Placement.checkOverlap notes startX startY); [|by left].
  destruct (Placement.search notes startX startY 100 Placement.walk_init)
    as [p|] eqn:Hsearch; [|by left].
  right. destruct (search_Some_candidate _ _ _ Hsearch) as (i & Hi & ->).
  by exists i.
Qed.
End spiral.

Lemma candidate_of_cell (startX startY : number) (i : nat) :
  Placement.candidate startX startY i =
  (startX + inject_Z (fst (spiral_cell i)) * (Placement.width + Placement.gap),
   startY + inject_Z (snd (spiral_cell i)) * (Placement.height + Placement.gap)).
Proof. reflexivity. Qed.

(** X5.  Order of the search: a free desired position is kept; otherwise the
    new note goes to the first free cell in the order of the spiral, and the
    first cell of that order is one column to the right of the desired
    position. *)
Theorem search_returns_first_free_cell (notes : list ProjectNote.t)
    (startX startY : number) :
  (Placement.checkOverlap notes startX startY = false →
   Placement.finalPosition notes startX startY = (startX, startY)) ∧
  (∀ i : nat,
     Placement.checkOverlap notes startX startY = true →
     (1 ≤ i ≤ 100)%nat →
     Placement.checkOverlap notes
       (fst (Placement.candidate startX startY i))
       (snd (Placement.candidate startX startY i)) = false →
     (∀ j : nat, (1 ≤ j < i)%nat →
        Placement.checkOverlap notes
          (fst (Placement.candidate startX startY j))
          (snd (Placement.candidate startX startY j)) = true) →
     Placement.finalPosition notes startX startY = Placement.candidate startX startY i) ∧
  same_position (Placement.candidate startX startY 1)
                (startX + (Placement.width + Placement.gap), startY).
Proof.
  split; [|split].
  - intros Hfree. unfold Placement.finalPosition. by rewrite Hfree.
  - intros i Hstart Hi Hfree Hbefore. unfold Placement.finalPosition.
    rewrite Hstart.
    by rewrite (search_first_free notes startX startY 100 i Placement.walk_init).
  - rewrite candidate_of_cell. change (spiral_cell 1) with (1%Z, 0%Z).
    unfold same_position. cbn [fst snd].
    change (inject_Z 1) with 1. change (inject_Z 0) with 0.
    unfold Placement.width, Placement.height, Placement.gap. split; lra.
Qed.

(** The desired position is taken by the first sample note; the cell to its
    right is free. *)
Lemma search_returns_first_free_cell_witness :
  Placement.finalPosition [sample_note "a" 300 240 400 320] 300 240 =
  Placement.candidate 300 240 1.
Proof.
  apply (proj1 (proj2 (search_returns_first_free_cell
                         [sample_note "a" 300 240 400 320] 300 240)) 1%nat).
  - vm_compute. reflexivity.
  - lia.
  - vm_compute. reflexivity.
  - intros j Hj. lia.
Defined.

Lemma spiral_cells_lookup (i : nat) :
  (i ≤ 100)%nat → spiral_cells !! i = Some (spiral_cell i).
Proof.
  intros Hi. unfold spiral_cells. rewrite list_lookup_fmap.
  rewrite lookup_seq_lt by lia. reflexivity.
Qed.


Lemma spiral_cells_within_5 : forallb (cell_within 5) spiral_cells = true.
Proof. vm_compute. reflexivity. Qed.




(** X7.  Reach of the search: the position given to a new note is never more
    than five columns (of width plus gap) and five rows (of height plus gap)
    away from the desired position. *)
Theorem new_note_stays_within_five_cells (notes : list ProjectNote.t)
    (startX startY : number) :
  let p := Placement.finalPosition notes startX startY in
  startX - 5 * (Placement.width + Placement.gap) <= fst p ∧
  fst p <= startX + 5 * (Placement.width + Placement.gap) ∧
  startY - 5 * (Placement.height + Placement.gap) <= snd p ∧
  snd p <= startY + 5 * (Placement.height + Placement.gap).
Proof.
  intros p. subst p.
  assert (Hcell : ∀ i : nat, (i ≤ 100)%nat →
    let q := Placement.candidate startX startY i in
    startX - 5 * (Placement.width + Placement.gap) <= fst q ∧
    fst q <= startX + 5 * (Placement.width + Placement.gap) ∧
    startY - 5 * (Placement.height + Placement.gap) <= snd q ∧
    snd q <= startY + 5 * (Placement.height + Placement.gap)).
  { intros i Hi. rewrite candidate_of_cell. cbv zeta. cbn [fst snd].
    pose proof spiral_cells_within_5 as Hall. rewrite forallb_forall in Hall.
    specialize (Hall (spiral_cell i)).
    assert (Hin : In (spiral_cell i) spiral_cells).
    { apply list_elem_of_In, list_elem_of_lookup. exists i.
      by apply spiral_cells_lookup. }
    specialize (Hall Hin). unfold cell_within in Hall.
    rewrite !andb_true_iff, !Z.leb_le in Hall.
    destruct Hall as (((Hx1 & Hx2) & Hy1) & Hy2).
    rewrite Zle_Qle in Hx1, Hx2, Hy1, Hy2.
    change (inject_Z (Z.opp 5)) with (-5) in *. change (inject_Z 5) with 5 in *.
    set (cx := inject_Z (fst (spiral_cell i))) in *.
    set (cy := inject_Z (snd (spiral_cell i))) in *.
    unfold Placement.width, Placement.height, Placement.gap.
    repeat split; lra. }
  destruct (finalPosition_cases notes startX startY) as [-> | (i & Hi & ->)].
  - simpl. unfold Placement.width, Placement.height, Placement.gap.
    repeat split; lra.
  - apply Hcell. lia.
Qed.

(** ** Guest sessions and local storage *)

(** X8.  Guest entry cannot fail on what is stored: when there is no stored
    text, or it is empty, or it does not parse, the session starts with exactly
    one note, the welcome note of 400 by 300, which respects the geometry
    floors; in every case the user is the guest, whose saves go to local
    storage whatever file id is left in the state. *)
Theorem guest_login_falls_back_to_welcome_note
    (JSON_parse : string → option (list ProjectNote.t))
    (localStorage : gmap string string) (window : Window.t) (uuid : string)
    (now : number) (st : App.t) :
  let st' := handleGuestLogin JSON_parse localStorage window uuid now st in
  (App.user st' = Some guest ∧
   save_destination guest (App.driveFileId st') = LocalStorage) ∧
  (no_usable_data JSON_parse localStorage →
   App.notes st' = getDefaultNotes window uuid now ∧
   (∃ n : ProjectNote.t,
      App.notes st' = [n] ∧ ProjectNote.title n = "Welcome to Horizon" ∧
      ProjectNote.id n = uuid ∧ ProjectNote.createdAt n = now ∧
      ProjectNote.width n = 400 ∧ ProjectNote.height n = 300 ∧ floors_hold n)).
Proof.
  intros st'. subst st'. unfold handleGuestLogin, no_usable_data. split.
  - split; [|reflexivity].
    destruct (localStorage !! horizon_notes) as [[|c r]|]; [done| |done].
    by destruct (JSON_parse (String c r)).
  - intros Huseless.
    assert (Hnotes :
      App.notes
        match localStorage !! horizon_notes with
        | Some (String c r) =>
            match JSON_parse (String c r) with
            | Some data => set_notes data (set_user (Some guest) st)
            | None =>
                set_notes (getDefaultNotes window uuid now) (set_user (Some guest) st)
            end
        | _ => set_notes (getDefaultNotes window uuid now) (set_user (Some guest) st)
        end = getDefaultNotes window uuid now).
    { destruct (localStorage !! horizon_notes) as [[|c r]|]; [done| |done].
      destruct Huseless as [Hempty | Hthrows]; [discriminate|].
      by rewrite Hthrows. }
    rewrite Hnotes. split; [done|]. eexists. split; [reflexivity|].
    repeat (split; [reflexivity|]). unfold floors_hold. simpl. split; lra.
Qed.

(** Corrupt text under the key. *)
Lemma guest_login_falls_back_to_welcome_note_witness :
  App.notes (handleGuestLogin parse_throws {[ horizon_notes := "{oops" ]}
               window_1000_800 "w" 5 guest_app)
  = getDefaultNotes window_1000_800 "w" 5.
Proof.
  destruct (guest_login_falls_back_to_welcome_note parse_throws
              {[ horizon_notes := "{oops" ]} window_1000_800 "w" 5 guest_app)
    as [_ Hfallback].
  apply Hfallback. unfold no_usable_data.
  rewrite lookup_singleton_eq. by right.
Defined.

(** X9.  Guest data survives a session: in a guest session, a mutation of the
    notes followed by two quiet seconds and a successful write stores a text
    under the key of the note collection from which the next guest entry, on
    any machine state, restores exactly the mutated notes (given that parsing
    undoes the serialisation of these notes, which is not the empty text). *)
Theorem guest_save_then_login_restores_notes (backend : Z → bool)
    (JSON_parse : string → option (list ProjectNote.t))
    (JSON_stringify : list ProjectNote.t → string)
    (st : App.t) (user : User.t) (t t' : Z)
    (f : list ProjectNote.t → list ProjectNote.t) :
  App.user st = Some user → User.accessToken user = EmptyString →
  (∀ tm : timeout, App.timer st = Some tm → (t < due tm)%Z) →
  (Z.max (App.clock st) t + 2000 ≤ t')%Z →
  backend (Z.max (App.clock st) t + 2000)%Z = true →
  JSON_parse (JSON_stringify (f (App.notes st))) = Some (f (App.notes st)) →
  JSON_stringify (f (App.notes st)) ≠ EmptyString →
  ∃ w : write,
    App.writes (elapse backend t' (mutate backend st (t, f))) = App.writes st ++ [w] ∧
    ∀ (localStorage : gmap string string) (window : Window.t) (uuid : string)
      (now : number) (later : App.t),
      App.notes
        (handleGuestLogin JSON_parse (store_write JSON_stringify localStorage w)
           window uuid now later)
      = f (App.notes st).
Proof.
  intros Huser Hguest Hpending Ht' Hok Hparse Hnonempty.
  rewrite (mutate_restarts_timer backend st user t f Huser Hpending).
  rewrite (timer_fires backend _
             (mkTimeout (Z.max (App.clock st) t + 2000) (f (App.notes st)) user
                        (App.driveFileId st)) t'); [|reflexivity|simpl; lia|exact Ht'].
  cbn [due timeout_notes timeout_user timeout_driveFileId App.writes]. rewrite Hok.
  eexists. split; [reflexivity|].
  intros localStorage window uuid now later.
  unfold store_write, save_destination. cbn [write_to write_ok write_payload].
  rewrite Hguest. unfold handleGuestLogin. rewrite lookup_insert_eq.
  destruct (JSON_stringify (f (App.notes st))) as [|c r] eqn:Htext; [done|].
  by rewrite Hparse.
Qed.

(** The guest resizes note [a]; two seconds later the notes are stored; a new
    guest entry on the stored text finds the resized note. *)
Lemma guest_save_then_login_restores_notes_witness :
  ∃ w : write,
    App.writes
      (elapse always_ok 9000
         (mutate always_ok guest_app (100%Z, updateNote "a" (size_update 500 400))))
    = [w] ∧
    ∀ (localStorage : gmap string string) (window : Window.t) (uuid : string)
      (now : number) (later : App.t),
      App.notes
        (handleGuestLogin
           (parse_sample (updateNote "a" (size_update 500 400) [note_a]))
           (store_write stringify_sample localStorage w) window uuid now later)
      = updateNote "a" (size_update 500 400) [note_a].
Proof.
  apply (guest_save_then_login_restores_notes always_ok
           (parse_sample (updateNote "a" (size_update 500 400) [note_a]))
           stringify_sample guest_app guest 100 9000
           (updateNote "a" (size_update 500 400))).
  - reflexivity.
  - reflexivity.
  - intros tm [= <-]. reflexivity.
  - simpl. lia.
  - reflexivity.
  - reflexivity.
  - discriminate.
Defined.

(** ** Loading from Drive and signing out *)



(** X11.  Sign-in with a remote file.  Its id is recorded and the only call
    made to Drive is the load of that file: the sync itself never writes to it.
    When the load returns, the notes in memory are the loaded ones and the
    status is [saved]; when it throws, the notes in memory are untouched and
    the status is [error], while the id stays recorded. *)
Theorem sync_with_remote_file_loads_it
    (JSON_parse : string → option (list ProjectNote.t))
    (loadDataFromDrive : string → outcome (list ProjectNote.t))
    (saveToDrive : list ProjectNote.t → option string → outcome string)
    (localStorage : gmap string string) (window : Window.t)
    (uuid : string) (now : number) (st : App.t) (fileId : string) :
  let result := syncFromDrive JSON_parse (Some fileId) loadDataFromDrive saveToDrive
                  localStorage window uuid now st in
  App.driveFileId (fst result) = Some fileId ∧
  snd result = [LoadCall fileId] ∧
  (∀ data : list ProjectNote.t,
     loadDataFromDrive fileId = Returns data →
     App.notes (fst result) = data ∧ App.saveStatus (fst result) = saved) ∧
  (loadDataFromDrive fileId = Throws →
   App.notes (fst result) = App.notes st ∧ App.saveStatus (fst result) = error).
Proof.
  intros result. subst result. unfold syncFromDrive.
  destruct (loadDataFromDrive fileId) as [|data]; simpl; split_and!; try done.
  - intros data' [= <-]. done.
Qed.

(** The load of the found file returns the two sample notes. *)
Lemma sync_with_remote_file_loads_it_witness :
  let result := syncFromDrive parse_throws (Some "file-1")
                  (λ _, Returns [note_a; note_b]) (λ _ _, Throws)
                  ∅ window_1000_800 "w" 5 fresh_login in
  App.notes (fst result) = [note_a; note_b] ∧ App.saveStatus (fst result) = saved.
Proof.
  destruct (sync_with_remote_file_loads_it parse_throws
              (λ _, Returns [note_a; note_b]) (λ _ _, Throws)
              ∅ window_1000_800 "w" 5 fresh_login "file-1")
    as (_ & _ & Hloaded & _).
  apply Hloaded. reflexivity.
Defined.

(** X12.  What follows a failed load.  In a signed-in session (non-empty access
    token) whose sync found a remote file (non-empty id) but could not load it,
    the save effect, run because the file id has changed, sets a timer; when it
    fires two seconds later, the notes in memory, which are not the notes of
    the remote file, are written to that file. *)
Theorem failed_load_is_followed_by_a_save_to_the_file (backend : Z → bool)
    (JSON_parse : string → option (list ProjectNote.t))
    (loadDataFromDrive : string → outcome (list ProjectNote.t))
    (saveToDrive : list ProjectNote.t → option string → outcome string)
    (localStorage : gmap string string) (window : Window.t)
    (uuid : string) (now : number) (st : App.t) (user : User.t)
    (fileId : string) (t : Z) :
  App.user st = Some user → User.accessToken user ≠ EmptyString →
  fileId ≠ EmptyString →
  loadDataFromDrive fileId = Throws →
  (App.clock st + 2000 ≤ t)%Z →
  let synced := fst (syncFromDrive JSON_parse (Some fileId) loadDataFromDrive
                       saveToDrive localStorage window uuid now st) in
  App.writes (elapse backend t (save_effect synced)) =
  App.writes st ++
  [mkWrite (App.clock st + 2000) (Drive fileId) (App.notes st)
           (backend (App.clock st + 2000)%Z)].
Proof.
  intros Huser Htoken Hfile Hthrows Ht synced. subst synced.
  unfold syncFromDrive. rewrite Hthrows. cbn [fst].
  assert (Heffect :
    save_effect (set_saveStatus error
                   (set_driveFileId (Some fileId) (set_saveStatus saving st))) =
    App.mk (Some user) (Some fileId) (App.notes st) saving
      (Some (mkTimeout (App.clock st + 2000) (App.notes st) user (Some fileId)))
      (App.clock st) (App.writes st)).
  { unfold save_effect. simpl. rewrite Huser.
    unfold set_timer, set_saveStatus. simpl. by rewrite Huser. }
  rewrite Heffect.
  rewrite (timer_fires backend _
             (mkTimeout (App.clock st + 2000) (App.notes st) user (Some fileId)) t);
    [|reflexivity|simpl; lia|exact Ht].
  cbn [App.writes due timeout_notes timeout_user timeout_driveFileId].
  unfold save_destination.
  destruct (User.accessToken user) as [|c r]; [done|].
  destruct fileId as [|c' r']; [done|]. reflexivity.
Qed.

(** A fresh login finds the file [file-1], the load throws, and the empty
    collection in memory is written to [file-1] two seconds later. *)
Lemma failed_load_is_followed_by_a_save_to_the_file_witness :
  App.writes
    (elapse always_ok 2000
       (save_effect
          (fst (syncFromDrive parse_throws (Some "file-1") (λ _, Throws)
                  (λ _ _, Throws) ∅ window_1000_800 "w" 5 fresh_login)))) =
  [mkWrite 2000 (Drive "file-1") [] true].
Proof.
  apply (failed_load_is_followed_by_a_save_to_the_file always_ok parse_throws
           (λ _, Throws) (λ _ _, Throws) ∅ window_1000_800 "w" 5 fresh_login
           signed_in "file-1" 2000).
  - reflexivity.
  - discriminate.
  - discriminate.
  - reflexivity.
  - simpl. lia.
Defined.

(** X13.  Signing out drops the pending save: after [handleSignOut] and the run
    of the save effect it causes, there is no user, no note, no file id and no
    timer, and however much time passes no write is made; what was changed in
    the two seconds before is never written, and the stored notes are never
    replaced by the empty collection.  [googleService.signOut] is called only
    for a session with an access token. *)
Theorem sign_out_drops_the_pending_save (backend : Z → bool) (st : App.t) (t : Z) :
  let st' := save_effect (fst (handleSignOut st)) in
  App.user st' = None ∧ App.notes st' = [] ∧ App.driveFileId st' = None ∧
  App.timer st' = None ∧
  App.writes (elapse backend t st') = App.writes st ∧
  (snd (handleSignOut st) = true ↔
   ∃ user : User.t, App.user st = Some user ∧ User.accessToken user ≠ EmptyString).
Proof.
  intros st'. subst st'. unfold handleSignOut, save_effect. cbn.
  split_and!; try reflexivity.
  destruct (App.user st) as [user|].
  - split.
    + intros Htoken. exists user. split; [done|].
      destruct (User.accessToken user); [discriminate|done].
    + intros (user' & [= <-] & Htoken). by destruct (User.accessToken user).
  - split; [discriminate|]. by intros (user & Hnone & _).
Qed.

(** ** Identity of notes under every action of the user interface *)

Section action_identities.
Implicit Types (s : list ProjectNote.t) (a : note_action).

Lemma drag_notes_identities id dx dy s :
  identity <$> drag_notes id dx dy s = identity <$> s.
Proof.
  unfold drag_notes. rewrite <- list_fmap_compose.
  apply list_fmap_ext. intros k n _. simpl.
  by destruct (decide (Some (ProjectNote.id n) = id)).
Qed.

Lemma apply_action_identities_sublist a s :
  sublist (identity <$> apply_action s a) ((identity <$> s) ++ identities_created [a]).
Proof.
  destruct a; simpl; rewrite ?app_nil_r.
  - unfold addNote. by rewrite fmap_app.
  - by rewrite drag_notes_identities.
  - unfold resize_move. by rewrite updateNote_identities.
  - destruct editor; [|done]. simpl. by rewrite updateNote_identities.
  - unfold handleColorChange. by rewrite updateNote_identities.
  - by rewrite updateNote_identities.
  - by rewrite updateNote_identities.
  - unfold handleAiBrainstorm. by rewrite updateNote_identities.
  - apply fmap_sublist, deleteNote_sublist.
Qed.

Lemma run_actions_identities_sublist (actions : list note_action) s :
  sublist (identity <$> run_actions actions s)
          ((identity <$> s) ++ identities_created actions).
Proof.
  revert s. induction actions as [|a actions IH]; intros s.
  - simpl. by rewrite app_nil_r.
  - change (run_actions (a :: actions) s) with (run_actions actions (apply_action s a)).
    etrans; [apply IH|].
    change (identities_created (a :: actions))
      with (omap (λ a, match a with
                       | ActAddNote c => Some (AddNoteCall.uuid c, AddNoteCall.now c)
                       | _ => None
                       end) ([a] ++ actions)).
    rewrite omap_app, app_assoc.
    apply sublist_app; [apply apply_action_identities_sublist | done].
Qed.
End action_identities.

(** X14.  No action of the user interface touches the identity of a note:
    after any sequence of actions, the (id, creation time) pairs of the notes,
    in order, are a subsequence of those of the initial notes followed by those
    assigned by the [addNote] actions.  Hence, if the ids handed out are new,
    the ids stay pairwise distinct. *)
Theorem every_action_keeps_identities (actions : list note_action)
    (s0 : list ProjectNote.t) :
  sublist (identity <$> run_actions actions s0)
          ((identity <$> s0) ++ identities_created actions) ∧
  (NoDup ((ProjectNote.id <$> s0) ++ (identities_created actions).*1) →
   NoDup (ProjectNote.id <$> run_actions actions s0)).
Proof.
  split; [apply run_actions_identities_sublist|].
  intros Hfresh. rewrite ids_of_identities.
  apply (sublist_NoDup _ (((identity <$> s0) ++ identities_created actions).*1)).
  - by rewrite fmap_app, <- ids_of_identities.
  - apply fmap_sublist, run_actions_identities_sublist.
Qed.

(** The sample actions on the two sample notes, with the new id [c]. *)
Lemma every_action_keeps_identities_witness :
  NoDup (ProjectNote.id <$> run_actions sample_actions [note_a; note_b]) ∧
  identity <$> run_actions sample_actions [note_a; note_b] =
    [("a", 1000); ("c", 2000)].
Proof.
  split; [|reflexivity].
  apply (proj2 (every_action_keeps_identities sample_actions [note_a; note_b])).
  apply (bool_decide_unpack _). vm_compute. exact I.
Defined.

(** ** googleService: script loading and sign-in *)




(** ** The AI suggestion appended to a note *)

Section suggestion.
Implicit Types (s a b : string).

Lemma characters_app a b : characters (a +:+ b) = characters a ++ characters b.
Proof. induction a as [|c a IH]; simpl; [done|]. by rewrite IH. Qed.

Lemma replace_newlines_no_newline s : newline ∉ characters (replace_newlines s).
Proof.
  induction s as [|c s IH]; simpl; [apply not_elem_of_nil|].
  destruct (Ascii.eqb c newline) eqn:Hc.
  - rewrite characters_app, elem_of_app. intros [Hbr | Hrest]; [|done].
    simpl in Hbr. rewrite !elem_of_cons in Hbr.
    destruct Hbr as [H|[H|[H|[H|[H|H]]]]]; try discriminate H.
    by apply elem_of_nil in H.
  - simpl. rewrite elem_of_cons. intros [Heq | Hrest]; [|done].
    apply Ascii.eqb_neq in Hc. congruence.
Qed.

Lemma replace_newlines_app a b :
  replace_newlines (a +:+ b) = (replace_newlines a +:+ replace_newlines b).
Proof.
  induction a as [|c a IH]; simpl; [done|]. rewrite IH.
  by destruct (Ascii.eqb c newline).
Qed.

Lemma replace_newlines_id s : newline ∉ characters s → replace_newlines s = s.
Proof.
  induction s as [|c s IH]; simpl; [done|].
  rewrite not_elem_of_cons. intros [Hne Hrest].
  destruct (Ascii.eqb c newline) eqn:Hc.
  - apply Ascii.eqb_eq in Hc. congruence.
  - by rewrite IH.
Qed.

Lemma replace_newlines_nonempty s : s ≠ EmptyString → replace_newlines s ≠ EmptyString.
Proof.
  destruct s as [|c s]; [done|]. intros _. simpl.
  by destruct (Ascii.eqb c newline).
Qed.

Lemma generateProjectIdeas_nonempty apiKey generateContent title content :
  generateProjectIdeas apiKey generateContent title content ≠ EmptyString.
Proof.
  unfold generateProjectIdeas. destruct apiKey; [done|].
  destruct (generateContent title content) as [|[[|c r]|]]; done.
Qed.
End suggestion.

(** X17.  The replacement of line breaks ([replace (/\n/g, '<br/>')]): the
    result holds no newline character, a text without newline is returned as it
    is, and the replacement of a concatenation is the concatenation of the
    replacements. *)
Theorem replace_newlines_removes_every_newline (a b : string) :
  (newline ∉ characters (replace_newlines a)) ∧
  (newline ∉ characters a → replace_newlines a = a) ∧
  replace_newlines (a +:+ b) = (replace_newlines a +:+ replace_newlines b).
Proof.
  split; [apply replace_newlines_no_newline|].
  split; [apply replace_newlines_id | apply replace_newlines_app].
Qed.

(** A text of two lines, and a text without newline. *)
Lemma replace_newlines_removes_every_newline_witness :
  replace_newlines "a<br/>b" = "a<br/>b" ∧
  (newline ∉ characters (replace_newlines ("a" +:+ String newline "b"))).
Proof.
  split.
  - apply (proj1 (proj2 (replace_newlines_removes_every_newline "a<br/>b" EmptyString))).
    simpl. rewrite !not_elem_of_cons. repeat split; try discriminate.
    apply not_elem_of_nil.
  - apply (proj1 (replace_newlines_removes_every_newline
                    ("a" +:+ String newline "b") EmptyString)).
Defined.

(** X18.  What an AI brainstorm does to the store, whatever the collaborator
    does (no key, rejection, empty or missing text, a text): the notes with the
    id of the card get as content the content the card was rendered with,
    followed by the suggestion header and a non-empty text without newline, and
    keep every other field; the other notes, and the number and order of the
    notes, are untouched. *)
Theorem brainstorm_appends_to_the_card_content (apiKey : string)
    (generateContent : string → string → generateContent_outcome)
    (textContent : string → option string)
    (note : ProjectNote.t) (prev : list ProjectNote.t) :
  ∃ suggestion : string,
    suggestion ≠ EmptyString ∧ (newline ∉ characters suggestion) ∧
    Forall2
      (λ n0 n,
         if decide (ProjectNote.id n0 = ProjectNote.id note)
         then n = spread n0 (content_update
                               (ProjectNote.content note +:+ suggestion_header
                                +:+ suggestion))
         else n = n0)
      prev (handleAiBrainstorm apiKey generateContent textContent note prev).
Proof.
  exists (replace_newlines
            (generateProjectIdeas apiKey generateContent (ProjectNote.title note)
               (or_else (textContent (ProjectNote.content note)) EmptyString))).
  split; [|split].
  - apply replace_newlines_nonempty, generateProjectIdeas_nonempty.
  - apply replace_newlines_no_newline.
  - unfold handleAiBrainstorm, updateNote. apply Forall2_fmap_r.
    apply Forall_Forall2_diag, Forall_forall. intros n0 _.
    unfold compose. cbv beta. by repeat case_decide.
Qed.

(** ** Steps of the zoom *)



(** ** Bursts of mutations *)

Section bursts.
Variable backend : Z → bool.

Lemma last_time_cons (first t : Z) f
    (ms : list (Z * (list ProjectNote.t → list ProjectNote.t))) :
  last_time first ((t, f) :: ms) = last_time t ms.
Proof.
  unfold last_time. rewrite fmap_cons. cbn [fst].
  generalize (fst <$> ms). intros l. revert first t.
  induction l as [|t' l IH]; intros first t; [done|].
  change (List.last (t :: t' :: l) first) with (List.last (t' :: l) first).
  by rewrite (IH first t'), (IH t t').
Qed.

Lemma burst_leaves_one_timer (ms : list (Z * (list ProjectNote.t → list ProjectNote.t)))
    (st : App.t) (user : User.t) (t : Z) (f : list ProjectNote.t → list ProjectNote.t) :
  App.user st = Some user → (App.clock st ≤ t)%Z →
  (∀ tm : timeout, App.timer st = Some tm → (t < due tm)%Z) →
  burst t ms →
  mutations backend ((t, f) :: ms) st =
  App.mk (Some user) (App.driveFileId st) (mutated ((t, f) :: ms) (App.notes st)) saving
    (Some (mkTimeout (last_time t ms + 2000) (mutated ((t, f) :: ms) (App.notes st))
                     user (App.driveFileId st)))
    (last_time t ms) (App.writes st).
Proof.
  revert st t f. induction ms as [|[t' f'] ms IH]; intros st t f Huser Hclock Hpending Hburst.
  - unfold mutations. simpl.
    rewrite (mutate_restarts_timer backend st user t f Huser Hpending).
    by rewrite (Z.max_r _ _ Hclock).
  - destruct Hburst as [Hnext Hburst]. cbn [fst] in Hnext, Hburst.
    change (mutations backend ((t, f) :: (t', f') :: ms) st)
      with (mutations backend ((t', f') :: ms) (mutate backend st (t, f))).
    rewrite (mutate_restarts_timer backend st user t f Huser Hpending).
    rewrite (Z.max_r _ _ Hclock).
    rewrite IH; [|reflexivity|simpl; lia| |exact Hburst].
    + by rewrite (last_time_cons t t' f' ms).
    + intros tm [= <-]. simpl. lia.
Qed.
End bursts.

(** X20.  Debounce, in general: in a session with a user and no save due, a
    burst of mutations (each less than two seconds after the one before) makes
    no write while it lasts and leaves the status [saving] and one timer;
    once two seconds have passed after the last mutation exactly one write has
    been made, two seconds after the last mutation, and it carries the notes as
    they are after the last mutation. *)
Theorem burst_of_mutations_is_saved_once (backend : Z → bool)
    (ms : list (Z * (list ProjectNote.t → list ProjectNote.t)))
    (st : App.t) (user : User.t) (t t' : Z)
    (f : list ProjectNote.t → list ProjectNote.t) :
  App.user st = Some user → (App.clock st ≤ t)%Z →
  (∀ tm : timeout, App.timer st = Some tm → (t < due tm)%Z) →
  burst t ms →
  (last_time t ms + 2000 ≤ t')%Z →
  let st' := mutations backend ((t, f) :: ms) st in
  let final := mutated ((t, f) :: ms) (App.notes st) in
  App.notes st' = final ∧ App.saveStatus st' = saving ∧
  App.writes st' = App.writes st ∧
  App.writes (elapse backend t' st') =
    App.writes st ++
    [mkWrite (last_time t ms + 2000) (save_destination user (App.driveFileId st))
             final (backend (last_time t ms + 2000)%Z)] ∧
  App.timer (elapse backend t' st') = None.
Proof.
  intros Huser Hclock Hpending Hburst Ht' st' final. subst st' final.
  rewrite (burst_leaves_one_timer backend ms st user t f Huser Hclock Hpending Hburst).
  rewrite (timer_fires backend _
             (mkTimeout (last_time t ms + 2000) (mutated ((t, f) :: ms) (App.notes st))
                        user (App.driveFileId st)) t');
    [|reflexivity|simpl; lia|exact Ht'].
  split_and!; reflexivity.
Qed.

(** Five edits of the guest, 1.5 seconds apart, are saved once, at 8100 ms. *)
Lemma burst_of_mutations_is_saved_once_witness :
  let ms := [(1600%Z, updateNote "a" (title_update "b"));
             (3100%Z, updateNote "a" (title_update "bc"));
             (4600%Z, updateNote "a" (title_update "bcd"));
             (6100%Z, updateNote "a" (title_update "bcde"))] in
  App.writes
    (elapse always_ok 10000
       (mutations always_ok ((100%Z, updateNote "a" (title_update "a")) :: ms) guest_app))
  = [mkWrite 8100 LocalStorage (updateNote "a" (title_update "bcde") [note_a]) true].
Proof.
  intros ms.
  destruct (burst_of_mutations_is_saved_once always_ok ms guest_app guest 100 10000
              (updateNote "a" (title_update "a")) eq_refl)
    as (_ & _ & _ & Hwrites & _).
  - simpl. lia.
  - intros tm [= <-]. reflexivity.
  - simpl. repeat split; lia.
  - vm_compute. discriminate.
  - exact Hwrites.
Defined.

(** ** How the store operations compose *)

Section store_algebra.
Implicit Types (s : list ProjectNote.t) (n : ProjectNote.t) (id : string).

Lemma spread_spread n (first later : Partial.t) :
  spread (spread n first) later = spread n (merge_updates first later).
Proof.
  unfold spread, merge_updates. simpl.
  destruct later as [[?|] [?|] [?|] [?|] [?|] [?|] [?|] [?|] [?|] [?|] [?|]];
    reflexivity.
Qed.

Lemma deleteNote_idempotent id s : deleteNote id (deleteNote id s) = deleteNote id s.
Proof.
  unfold deleteNote. rewrite list_filter_filter. apply list_filter_iff. tauto.
Qed.

Lemma deleteNote_updateNote id id' updates s :
  Partial.id updates = None →
  deleteNote id (updateNote id' updates s) = updateNote id' updates (deleteNote id s).
Proof.
  intros Hid. unfold deleteNote, updateNote.
  induction s as [|n s IH]; [done|]. rewrite fmap_cons.
  assert (Hsame : ProjectNote.id
            (if decide (ProjectNote.id n = id') then spread n updates else n)
          = ProjectNote.id n).
  { destruct (decide (ProjectNote.id n = id')); [|done].
    unfold spread. simpl. by rewrite Hid. }
  destruct (decide (ProjectNote.id n = id)) as [Heq|Hne].
  - rewrite !filter_cons_False by (rewrite ?Hsame; tauto). exact IH.
  - rewrite !filter_cons_True by (rewrite ?Hsame; tauto).
    rewrite fmap_cons. by rewrite IH.
Qed.
End store_algebra.

(** X21.  Deleting: after [deleteNote (id)] no note has that id; deleting again
    changes nothing; deleting the note just added under a new id gives back the
    store as it was; and deleting commutes with any update whose payload does
    not name [id]. *)
Theorem delete_composes (id id' : string) (updates : Partial.t)
    (c : AddNoteCall.t) (s : list ProjectNote.t) :
  (id ∉ ProjectNote.id <$> deleteNote id s) ∧
  deleteNote id (deleteNote id s) = deleteNote id s ∧
  (AddNoteCall.uuid c ∉ ProjectNote.id <$> s →
   deleteNote (AddNoteCall.uuid c) (addNote c s) = s) ∧
  (Partial.id updates = None →
   deleteNote id (updateNote id' updates s) = updateNote id' updates (deleteNote id s)).
Proof.
  split_and!.
  - rewrite list_elem_of_fmap. intros (n & Hid & Hin).
    apply elem_of_deleteNote in Hin as [_ Hne]. congruence.
  - apply deleteNote_idempotent.
  - intros Hfresh. unfold addNote, deleteNote. rewrite filter_app.
    rewrite filter_cons_False by (simpl; tauto). rewrite filter_nil, app_nil_r.
    by apply deleteNote_absent.
  - apply deleteNote_updateNote.
Qed.

(** A note is added to the two sample notes under the new id [c] and deleted. *)
Lemma delete_composes_witness :
  deleteNote "c" (addNote (sample_call "c") [note_a; note_b]) = [note_a; note_b] ∧
  deleteNote "a" (updateNote "b" (size_update 500 400) [note_a; note_b]) =
    updateNote "b" (size_update 500 400) (deleteNote "a" [note_a; note_b]).
Proof.
  destruct (delete_composes "a" "b" (size_update 500 400) (sample_call "c")
              [note_a; note_b]) as (_ & _ & Hundo & Hcommute).
  split.
  - apply Hundo. simpl. rewrite !not_elem_of_cons.
    repeat split; try discriminate. apply not_elem_of_nil.
  - apply Hcommute. reflexivity.
Defined.

(** X22.  Two updates in a row: when the first payload does not name [id], two
    updates of the same note are one update with the merged payload, in which
    a field named by the later payload wins and the other fields of the first
    are kept. *)
Theorem two_updates_are_one (id : string) (first later : Partial.t)
    (s : list ProjectNote.t) :
  Partial.id first = None →
  updateNote id later (updateNote id first s) =
  updateNote id (merge_updates first later) s.
Proof.
  intros Hid. unfold updateNote. rewrite <- list_fmap_compose.
  apply list_fmap_ext. intros k n _. simpl.
  destruct (decide (ProjectNote.id n = id)) as [Heq|Hne].
  - rewrite decide_True by (unfold spread; simpl; by rewrite Hid).
    apply spread_spread.
  - by rewrite decide_False.
Qed.

(** A resize followed by a second resize and by a change of title. *)
Lemma two_updates_are_one_witness :
  updateNote "a" (size_update 600 500)
    (updateNote "a" (size_update 500 400) [note_a; note_b]) =
  updateNote "a" (size_update 600 500) [note_a; note_b] ∧
  updateNote "a" (title_update "Plan")
    (updateNote "a" (size_update 500 400) [note_a; note_b]) =
  updateNote "a" (merge_updates (size_update 500 400) (title_update "Plan"))
    [note_a; note_b].
Proof.
  split.
  - apply (two_updates_are_one "a" (size_update 500 400) (size_update 600 500)
             [note_a; note_b]). reflexivity.
  - apply (two_updates_are_one "a" (size_update 500 400) (title_update "Plan")
             [note_a; note_b]). reflexivity.
Defined.

(** ** Looking up the remote file *)


